(** * Mock sparse matrix (dgl/mock_dgl_sparse/python/sp_matrix.py)

    A shallow embedding of the [SparseMatrix] class and of its three
    construction entry points, together with the part of the tensor library
    the class delegates to (sparse COO / CSR tensors, coalescing, size
    inference, densification).

    Index tensors are lists of [Z] (int64 tensors), value tensors are lists
    over an arbitrary element type [V] (one element per stored entry, so a
    value tensor of shape (nnz, D) is a list of rows), Python exceptions are
    the [Raise] branch of [result], and Python objects live in a store that
    is threaded through every method that allocates, mutates or returns an
    object reference. *)

From stdpp Require Import list strings numbers sorting.

Local Open Scope Z_scope.

(** ** Exceptions and results *)

Inductive exn : Set :=
  | AssertionError
  | NotImplementedError
  | RuntimeError.

Inductive result (A : Type) : Type :=
  | Ok (a : A)
  | Raise (e : exn).

Arguments Ok {A} a.
Arguments Raise {A} e.

Definition rbind {A B : Type} (r : result A) (k : A → result B) : result B :=
  match r with
  | Ok a => k a
  | Raise e => Raise e
  end.

(** ** Element types of value tensors *)

Class Dtype (V : Type) := {
  vadd : V → V → V;
  vzero : V;
  vone : V
}.

#[export] Instance Z_dtype : Dtype Z := {| vadd := Z.add; vzero := 0; vone := 1 |}.

(** Element types whose addition is associative (integer tensors), for the
    statements that compare sums taken in different groupings. *)
Class DtypeAssoc (V : Type) `{Dtype V} : Prop :=
  vadd_assoc : ∀ a b c : V, vadd a (vadd b c) = vadd (vadd a b) c.

(** ** The tensor library *)

Module Torch.

(** A coordinate: (row, column). *)
Definition index : Type := Z * Z.

(** Lexicographic order on coordinates, the order [coalesce] sorts by. *)
Definition idx_compare (a b : index) : comparison :=
  match a.1 ?= b.1 with
  | Eq => a.2 ?= b.2
  | c => c
  end.

Definition key_lt (a b : index) : Prop :=
  a.1 < b.1 ∨ (a.1 = b.1 ∧ a.2 < b.2).

(** The coordinates [coalesce] leaves when an entry at [k] is added to
    entries stored at the coordinates [K]. *)
Fixpoint insert_key (k : index) (K : list index) : list index :=
  match K with
  | [] => [k]
  | k' :: t =>
      match idx_compare k k' with
      | Lt => k :: k' :: t
      | Eq => k' :: t
      | Gt => k' :: insert_key k t
      end
  end.

Definition coalesce_keys (K : list index) : list index :=
  fold_left (λ acc k, insert_key k acc) K [].

(** Coordinates in strictly increasing order: sorted and free of
    duplicates. *)
Fixpoint ascending (K : list index) : bool :=
  match K with
  | a :: (b :: _) as t =>
      match idx_compare a b with
      | Lt => ascending t
      | _ => false
      end
  | _ => true
  end.

Definition nonneg (idx : list Z) : bool := forallb (λ i, 0 <=? i) idx.

(** Index tensors hold 64-bit integers, and so does a size. *)
Definition int64_max : Z := 2 ^ 63 - 1.

(** The size inferred from an index, index + 1, is still a 64-bit
    integer. *)
Definition fits (idx : list Z) : bool := forallb (λ i, i <? int64_max) idx.

(** [m] is the largest element of [l]. *)
Definition is_max (m : Z) (l : list Z) : Prop :=
  m ∈ l ∧ Forall (λ x, x ≤ m) l.

Section Tensors.
Context {V : Type} `{Dtype V}.

(** [torch.ones(n)] *)
Definition ones (n : nat) : list V := replicate n vone.

(** A sparse COO tensor with two sparse dimensions: its stored entries in
    storage order, its size along the two sparse dimensions, and the mark
    the library keeps on tensors it takes to be coalesced already. *)
Record coo_tensor : Type := {
  coo_entries : list (index * V);
  coo_size : Z * Z;
  coo_coalesced : bool
}.

Definition keys (E : list (index * V)) : list index := E.*1.

(** [t.indices()]: the 2 x nnz index tensor, as its two rows. *)
Definition indices (t : coo_tensor) : list Z * list Z :=
  ((keys (coo_entries t)).*1, (keys (coo_entries t)).*2).

(** [t.values()] *)
Definition values (t : coo_tensor) : list V := (coo_entries t).*2.

(** [t._nnz()] *)
Definition _nnz (t : coo_tensor) : nat := length (coo_entries t).

(** [torch.cat((row.unsqueeze(0), col.unsqueeze(0)), 0)]: stacking two
    1-D tensors needs equal lengths. *)
Definition cat_index (row col : list Z) : result (list Z * list Z) :=
  if decide (length row = length col) then Ok (row, col)
  else Raise RuntimeError.

(** Size inference of [torch.sparse_coo_tensor(i, val)] along one sparse
    dimension: max index + 1, and 0 when there is no index at all. *)
Definition infer_size (idx : list Z) : Z :=
  match idx with
  | [] => 0
  | x :: l => foldr Z.max x l + 1
  end.

(** [torch.sparse_coo_tensor(i, val)] without an explicit size: the number
    of values must be the number of index columns, no index may be
    negative, and the inferred size must fit a 64-bit integer. The new
    tensor is not marked coalesced. *)
Definition sparse_coo_tensor (i : list Z * list Z) (val : list V)
  : result coo_tensor :=
  if decide (length val = length i.1) then
    if nonneg i.1 && nonneg i.2 && (fits i.1 && fits i.2) then
      Ok {| coo_entries := zip (zip i.1 i.2) val;
            coo_size := (infer_size i.1, infer_size i.2);
            coo_coalesced := false |}
    else Raise RuntimeError
  else Raise RuntimeError.

(** One step of coalescing: put an entry at its sorted position, or add its
    value to the entry already stored at that coordinate. *)
Fixpoint insert_entry (k : index) (v : V) (l : list (index * V))
  : list (index * V) :=
  match l with
  | [] => [(k, v)]
  | (k', v') :: t =>
      match idx_compare k k' with
      | Lt => (k, v) :: (k', v') :: t
      | Eq => (k', vadd v' v) :: t
      | Gt => (k', v') :: insert_entry k v t
      end
  end.

Definition coalesce_entries (E : list (index * V)) : list (index * V) :=
  fold_left (λ acc e, insert_entry e.1 e.2 acc) E [].

(** [t.coalesce()]: a tensor marked coalesced is returned as it is;
    otherwise the entries are sorted by coordinate and duplicates summed,
    the size is kept and the result is marked. *)
Definition coalesce (t : coo_tensor) : coo_tensor :=
  if coo_coalesced t then t
  else {| coo_entries := coalesce_entries (coo_entries t);
          coo_size := coo_size t;
          coo_coalesced := true |}.

(** The entries of the tensor are in coalesced form (strictly increasing
    coordinates) and its indices pass the checks of [sparse_coo_tensor]. *)
Definition is_coalesced (t : coo_tensor) : bool :=
  ascending (keys (coo_entries t))
  && nonneg (indices t).1 && nonneg (indices t).2
  && (fits (indices t).1 && fits (indices t).2).

(** The size of the tensor is the one [sparse_coo_tensor] infers from its
    indices. *)
Definition size_inferred (t : coo_tensor) : bool :=
  bool_decide (coo_size t = (infer_size (indices t).1, infer_size (indices t).2)).

(** The value a tensor holds at a coordinate: the sum of the entries stored
    there, zero when there is none. *)
Definition entry_at (E : list (index * V)) (i j : Z) : V :=
  fold_left (λ acc e, if decide (e.1 = (i, j)) then vadd acc e.2 else acc)
            E vzero.

(** The value of the first entry stored at a coordinate. *)
Definition find_entry (E : list (index * V)) (k : index) : option V :=
  (λ p, p.2.2) <$> list_find (λ e, e.1 = k) E.

(** One step of [entry_at]: an entry adds its value when it is stored at
    the coordinate asked for. *)
Definition add_at (i j : Z) (acc : V) (e : index * V) : V :=
  if decide (e.1 = (i, j)) then vadd acc e.2 else acc.

(** [t.to_dense()] *)
Definition to_dense (t : coo_tensor) : list (list V) :=
  (λ i, (λ j, entry_at (coo_entries t) i j) <$> seqZ 0 (coo_size t).2)
    <$> seqZ 0 (coo_size t).1.

(** A sparse CSR tensor. *)
Record csr_tensor : Type := {
  crow_indices : list Z;
  col_indices : list Z;
  csr_values : list V;
  csr_size : Z * Z
}.

Fixpoint nondecreasing (l : list Z) : bool :=
  match l with
  | a :: (b :: _) as t => (a <=? b) && nondecreasing t
  | _ => true
  end.

(** [torch.sparse_csr_tensor(crow, col, val)] without an explicit size,
    on the inputs that are CSR tensors: the row pointer starts at 0, never
    decreases and ends at the number of stored entries; column indices are
    not negative; there is one value per column index. The size is
    (len(crow) - 1, max col + 1). Which of these conditions the library
    checks depends on its release (some releases check none by default,
    some also reject columns that are repeated or out of order within a
    row); what it makes of arrays that are no CSR tensor is not modelled,
    and they are refused here. *)
Definition sparse_csr_tensor (crow col : list Z) (val : list V)
  : result csr_tensor :=
  if decide (length val = length col) then
    if bool_decide (head crow = Some 0)
       && bool_decide (list.last crow = Some (Z.of_nat (length col)))
       && nondecreasing crow && nonneg col then
      Ok {| crow_indices := crow; col_indices := col; csr_values := val;
            csr_size := (Z.of_nat (length crow) - 1, infer_size col) |}
    else Raise RuntimeError
  else Raise RuntimeError.

(** Row index of every stored entry of a CSR tensor: row [i] owns the
    entries [crow[i] .. crow[i+1] - 1]. *)
Fixpoint csr_rows (i : Z) (crow : list Z) : list Z :=
  match crow with
  | a :: (b :: _) as t => replicate (Z.to_nat (b - a)) i ++ csr_rows (i + 1) t
  | _ => []
  end.

(** [t.to_sparse_coo()]: the entries in storage order, each with its row
    index; the library marks the result coalesced without looking at the
    column indices. *)
Definition to_sparse_coo (t : csr_tensor) : coo_tensor :=
  {| coo_entries :=
       zip (zip (csr_rows 0 (crow_indices t)) (col_indices t)) (csr_values t);
     coo_size := csr_size t;
     coo_coalesced := true |}.

End Tensors.

Arguments coo_tensor V : clear implicits.
Arguments csr_tensor V : clear implicits.

End Torch.

(** ** The store of Python objects *)

#[export] Instance result_ret : MRet result := @Ok.
#[export] Instance result_bind : MBind result := λ A B k r, rbind r k.

Module Store.
Section Store.
Context {O : Type}.

(** Objects are referred to by their position in the store; a new object
    goes to the end, so references handed out earlier stay valid. *)
Definition ref : Type := nat.
Definition heap : Type := list O.

(** A computation reads and updates the store and either returns a value or
    raises. *)
Definition M (A : Type) : Type := heap → result A * heap.

Definition ret {A : Type} (a : A) : M A := λ h, (Ok a, h).

Definition bind {A B : Type} (m : M A) (k : A → M B) : M B :=
  λ h, match m h with
       | (Ok a, h') => k a h'
       | (Raise e, h') => (Raise e, h')
       end.

Definition lift {A : Type} (r : result A) : M A := λ h, (r, h).

Definition assert (b : bool) : M unit :=
  λ h, (if b then Ok () else Raise AssertionError, h).

Definition alloc (o : O) : M ref := λ h, (Ok (length h), h ++ [o]).

Definition deref (r : ref) : M O :=
  λ h, match h !! r with
       | Some o => (Ok o, h)
       | None => (Raise RuntimeError, h)
       end.

Definition store (r : ref) (o : O) : M unit := λ h, (Ok (), <[r := o]> h).

End Store.
Arguments heap O : clear implicits.
Arguments M O A : clear implicits.
End Store.

Declare Scope store_scope.
Delimit Scope store_scope with store.
Notation "x <- m ;; k" := (Store.bind m (λ x, k))
  (at level 100, m at next level, right associativity) : store_scope.
Notation "m ;; k" := (Store.bind m (λ _, k))
  (at level 100, right associativity) : store_scope.

(** ** The SparseMatrix class *)

Module SpMatrix.
Import Torch Store.

Section Class.
Context {V : Type} `{Dtype V}.

(** The fields of an instance. The [dtype] and [device] properties only
    forward to the tensor library and are left out. *)
Record SparseMatrix : Type := {
  _row : list Z;
  _col : list Z;
  _val : list V;
  adj : coo_tensor V
}.

(** [if val is None: val = torch.ones(row.shape[0])] *)
Definition init_val (row : list Z) (val : option (list V)) : list V :=
  match val with
  | None => ones (length row)
  | Some val => val
  end.

(** [SparseMatrix.__init__(self, row, col, val=None)]: the fields the new
    object ends up with, or the exception the tensor library raises. *)
Definition __init__ (row col : list Z) (val : option (list V))
  : result SparseMatrix :=
  let val := init_val row val in
  i ← cat_index row col;
  t ← sparse_coo_tensor i val;
  Ok {| _row := row; _col := col; _val := val; adj := coalesce t |}.

(** [@property shape] *)
Definition shape (self : SparseMatrix) : Z * Z :=
  ((coo_size (adj self)).1, (coo_size (adj self)).2).

(** [@property nnz] *)
Definition nnz (self : SparseMatrix) : nat := _nnz (adj self).

(** [@property row] *)
Definition row (self : SparseMatrix) : list Z := (Torch.indices (adj self)).1.

(** [@property col] *)
Definition col (self : SparseMatrix) : list Z := (Torch.indices (adj self)).2.

(** [@property val] *)
Definition val (self : SparseMatrix) : list V := _val self.

(** [indices(self, format, return_shuffle=False)] *)
Definition indices (self : SparseMatrix) (format : string)
    (return_shuffle : bool) : result (list Z * list Z) :=
  if bool_decide (format = "COO") && negb return_shuffle
  then Ok (Torch.indices (adj self))
  else Raise NotImplementedError.

(** [dense(self)] *)
Definition dense (self : SparseMatrix) : list (list V) := to_dense (adj self).

(** The value the matrix stores at a coordinate, if it stores one. *)
Definition stored_at (self : SparseMatrix) (i j : Z) : option V :=
  (λ p, p.2.2) <$> list_find (λ e, e.1 = (i, j)) (coo_entries (adj self)).

Local Open Scope store_scope.

(** The call [SparseMatrix(row, col, val)]: a new object is allocated and
    initialised. *)
Definition new (row col : list Z) (val : option (list V))
  : M SparseMatrix ref :=
  o <- lift (__init__ row col val);;
  alloc o.

(** [@val.setter]: [self.val = x] *)
Definition set_val (self : ref) (x : list V) : M SparseMatrix unit :=
  o <- deref self;;
  assert (bool_decide (length x = nnz o));;
  store self {| _row := _row o; _col := _col o; _val := x; adj := adj o |}.

(** [__call__(self, x)]: [self(x)] *)
Definition __call__ (self : ref) (x : list V) : M SparseMatrix ref :=
  o <- deref self;;
  assert (bool_decide (length x = nnz o));;
  new (row o) (col o) (Some x).

(** [coo(self)], [csr(self)], [csc(self)] *)
Definition coo (self : ref) : M SparseMatrix ref := ret self.
Definition csr (self : ref) : M SparseMatrix ref := ret self.
Definition csc (self : ref) : M SparseMatrix ref := ret self.

(** [create_from_coo(row, col, val=None)] *)
Definition create_from_coo (row col : list Z) (val : option (list V))
  : M SparseMatrix ref :=
  new row col val.

(** [create_from_csr(indptr, indices, val=None)]. The conversion
    [to_sparse_coo()] marks its result coalesced, so the [coalesce()] that
    follows hands it on as it is: the constructor receives the entries in
    storage order, repeated coordinates included. *)
Definition create_from_csr (indptr indices : list Z) (val : option (list V))
  : M SparseMatrix ref :=
  adj_csr <- lift (sparse_csr_tensor indptr indices
                     (ones (V:=V) (length indices)));;
  let adj_coo := coalesce (to_sparse_coo adj_csr) in
  let '(row, col) := Torch.indices adj_coo in
  new row col val.

(** [create_from_csc(indptr, indices, val=None)]: the same conversion,
    with the two index rows taken as (column, row). *)
Definition create_from_csc (indptr indices : list Z) (val : option (list V))
  : M SparseMatrix ref :=
  adj_csr <- lift (sparse_csr_tensor indptr indices
                     (ones (V:=V) (length indices)));;
  let adj_coo := coalesce (to_sparse_coo adj_csr) in
  let '(col, row) := Torch.indices adj_coo in
  new row col val.

End Class.

Arguments SparseMatrix V : clear implicits.

End SpMatrix.

Import Torch Store SpMatrix.

(** ** The matrices of the docstrings and of the module's self-test *)

Module Examples.

(** [SparseMatrix(torch.tensor([1, 1, 2]), torch.tensor([2, 4, 3]))] *)
Definition doc_matrix : SparseMatrix Z :=
  {| _row := [1; 1; 2]; _col := [2; 4; 3]; _val := [1; 1; 1];
     adj := {| coo_entries := [(1, 2, 1); (1, 4, 1); (2, 3, 1)];
               coo_size := (3, 5);
               coo_coalesced := true |} |}.

(** The same coordinates with the values [torch.tensor([1, 1, 2])] of the
    self-test. *)
Definition test_matrix : SparseMatrix Z :=
  {| _row := [1; 1; 2]; _col := [2; 4; 3]; _val := [1; 1; 2];
     adj := {| coo_entries := [(1, 2, 1); (1, 4, 1); (2, 3, 2)];
               coo_size := (3, 5);
               coo_coalesced := true |} |}.

(** [create_from_csr(torch.tensor([0, 1, 2, 5]),
                     torch.tensor([1, 2, 0, 1, 2]))] *)
Definition csr_matrix : SparseMatrix Z :=
  {| _row := [0; 1; 2; 2; 2]; _col := [1; 2; 0; 1; 2];
     _val := [1; 1; 1; 1; 1];
     adj := {| coo_entries :=
                 [(0, 1, 1); (1, 2, 1); (2, 0, 1); (2, 1, 1); (2, 2, 1)];
               coo_size := (3, 3);
               coo_coalesced := true |} |}.

(** [create_from_csc(torch.tensor([0, 1, 3, 5]),
                     torch.tensor([2, 0, 2, 1, 2]))] *)
Definition csc_matrix : SparseMatrix Z :=
  {| _row := [2; 0; 2; 1; 2]; _col := [0; 1; 1; 2; 2];
     _val := [1; 1; 1; 1; 1];
     adj := {| coo_entries :=
                 [(0, 1, 1); (1, 2, 1); (2, 0, 1); (2, 1, 1); (2, 2, 1)];
               coo_size := (3, 3);
               coo_coalesced := true |} |}.

(** [SparseMatrix(torch.tensor([1, 0]), torch.tensor([0, 0]),
                  torch.tensor([10, 20]))]: coordinates not in sorted
    order. *)
Definition unsorted_matrix : SparseMatrix Z :=
  {| _row := [1; 0]; _col := [0; 0]; _val := [10; 20];
     adj := {| coo_entries := [(0, 0, 20); (1, 0, 10)];
               coo_size := (2, 1);
               coo_coalesced := true |} |}.

(** [SparseMatrix(torch.tensor([0, 0]), torch.tensor([0, 0]))]: the same
    coordinate twice. *)
Definition duplicate_matrix : SparseMatrix Z :=
  {| _row := [0; 0]; _col := [0; 0]; _val := [1; 1];
     adj := {| coo_entries := [(0, 0, 2)]; coo_size := (1, 1);
               coo_coalesced := true |} |}.

(** [A(torch.tensor([7, 8, 9]))] for the matrix [A] of the self-test. *)
Definition copy_matrix : SparseMatrix Z :=
  {| _row := [1; 1; 2]; _col := [2; 4; 3]; _val := [7; 8; 9];
     adj := {| coo_entries := [(1, 2, 7); (1, 4, 8); (2, 3, 9)];
               coo_size := (3, 5);
               coo_coalesced := true |} |}.

(** The matrix of the self-test after [A.val = torch.ones(A.nnz)]. *)
Definition reset_matrix : SparseMatrix Z :=
  {| _row := [1; 1; 2]; _col := [2; 4; 3]; _val := [1; 1; 1];
     adj := {| coo_entries := [(1, 2, 1); (1, 4, 1); (2, 3, 2)];
               coo_size := (3, 5);
               coo_coalesced := true |} |}.

(** The CSR and CSC examples of the docstrings with the values
    [1, 2, 3, 4, 5]. *)
Definition csr_val_matrix : SparseMatrix Z :=
  {| _row := [0; 1; 2; 2; 2]; _col := [1; 2; 0; 1; 2];
     _val := [1; 2; 3; 4; 5];
     adj := {| coo_entries :=
                 [(0, 1, 1); (1, 2, 2); (2, 0, 3); (2, 1, 4); (2, 2, 5)];
               coo_size := (3, 3);
               coo_coalesced := true |} |}.

Definition csc_val_matrix : SparseMatrix Z :=
  {| _row := [2; 0; 2; 1; 2]; _col := [0; 1; 1; 2; 2];
     _val := [1; 2; 3; 4; 5];
     adj := {| coo_entries :=
                 [(0, 1, 2); (1, 2, 4); (2, 0, 1); (2, 1, 3); (2, 2, 5)];
               coo_size := (3, 3);
               coo_coalesced := true |} |}.

End Examples.

(** * Properties of the tensor library model *)

Section OrderFacts.

Lemma idx_compare_spec (a b : index) :
  CompareSpec (a = b) (key_lt a b) (key_lt b a) (idx_compare a b).
Proof.
  destruct a as [a1 a2], b as [b1 b2]. unfold idx_compare, key_lt; simpl.
  destruct (Z.compare_spec a1 b1) as [->|Hlt|Hgt].
  - destruct (Z.compare_spec a2 b2) as [->|Hlt|Hgt]; constructor;
      [reflexivity | right; lia | right; lia].
  - constructor. left; lia.
  - constructor. left; lia.
Qed.

#[local] Instance key_lt_trans : Transitive key_lt.
Proof. intros [] [] []; unfold key_lt; simpl; lia. Qed.

Lemma key_lt_irrefl (a : index) : ¬ key_lt a a.
Proof. destruct a; unfold key_lt; simpl; lia. Qed.

Lemma key_lt_asym (a b : index) : key_lt a b → ¬ key_lt b a.
Proof. destruct a, b; unfold key_lt; simpl; lia. Qed.

Lemma idx_compare_Lt (a b : index) : idx_compare a b = Lt ↔ key_lt a b.
Proof.
  destruct (idx_compare_spec a b) as [->|Hlt|Hgt]; split; try done.
  - intros Hk. by apply key_lt_irrefl in Hk.
  - intros Hk. by apply key_lt_asym in Hk.
Qed.

Lemma elem_of_insert_key (k c : index) (K : list index) :
  c ∈ insert_key k K ↔ c = k ∨ c ∈ K.
Proof.
  induction K as [|d K IH]; simpl.
  - rewrite elem_of_cons, elem_of_nil. tauto.
  - destruct (idx_compare_spec k d); subst;
      rewrite ?elem_of_cons, ?IH, ?elem_of_cons; tauto.
Qed.

Lemma elem_of_fold_insert_key (K acc : list index) (c : index) :
  c ∈ fold_left (λ acc k, insert_key k acc) K acc ↔ c ∈ K ∨ c ∈ acc.
Proof.
  revert acc; induction K as [|k K IH]; intros acc; simpl.
  - rewrite elem_of_nil. tauto.
  - rewrite IH, elem_of_insert_key, elem_of_cons. tauto.
Qed.

Lemma elem_of_coalesce_keys (K : list index) (c : index) :
  c ∈ coalesce_keys K ↔ c ∈ K.
Proof.
  unfold coalesce_keys. rewrite elem_of_fold_insert_key, elem_of_nil. tauto.
Qed.

Lemma insert_key_sorted (k : index) (K : list index) :
  StronglySorted key_lt K → StronglySorted key_lt (insert_key k K).
Proof.
  induction 1 as [|d K HK IH Hd]; simpl.
  - repeat constructor.
  - destruct (idx_compare_spec k d) as [->|Hlt|Hgt].
    + by constructor.
    + constructor; [by constructor|].
      constructor; [done|].
      eapply Forall_impl; [exact Hd|]. intros c Hc. by etrans.
    + constructor; [done|].
      apply Forall_forall. intros c Hc.
      apply elem_of_insert_key in Hc as [->|Hc]; [done|].
      by eapply Forall_forall in Hd.
Qed.

Lemma fold_insert_key_sorted (K acc : list index) :
  StronglySorted key_lt acc →
  StronglySorted key_lt (fold_left (λ acc k, insert_key k acc) K acc).
Proof.
  revert acc; induction K as [|k K IH]; intros acc Hacc; simpl; [done|].
  by apply IH, insert_key_sorted.
Qed.

Lemma coalesce_keys_sorted (K : list index) :
  StronglySorted key_lt (coalesce_keys K).
Proof. apply fold_insert_key_sorted. constructor. Qed.

Lemma insert_key_last (k : index) (K : list index) :
  Forall (λ c, key_lt c k) K → insert_key k K = K ++ [k].
Proof.
  induction 1 as [|d K Hd HK IH]; simpl; [done|].
  destruct (idx_compare_spec k d) as [->|Hlt|Hgt].
  - by apply key_lt_irrefl in Hd.
  - by apply key_lt_asym in Hd.
  - by rewrite IH.
Qed.

Lemma fold_insert_key_append (K acc : list index) :
  StronglySorted key_lt (acc ++ K) →
  fold_left (λ acc k, insert_key k acc) K acc = acc ++ K.
Proof.
  revert acc; induction K as [|k K IH]; intros acc HS; simpl.
  - by rewrite app_nil_r.
  - rewrite insert_key_last.
    + rewrite IH; rewrite <- app_assoc; done.
    + apply Forall_forall. intros c Hc.
      eapply StronglySorted_app_1_elem_of; [exact HS|done|]. by left.
Qed.

(** Coalescing coordinates that are already strictly increasing changes
    nothing. *)
Lemma coalesce_keys_id (K : list index) :
  StronglySorted key_lt K → coalesce_keys K = K.
Proof. intros HS. unfold coalesce_keys. by rewrite fold_insert_key_append. Qed.

Lemma ascending_sorted (K : list index) :
  ascending K = true ↔ StronglySorted key_lt K.
Proof.
  split.
  - intros HK. apply Sorted_StronglySorted; [apply _|].
    induction K as [|a K IH]; [constructor|].
    destruct K as [|b K]; [by repeat constructor|].
    simpl in HK. destruct (idx_compare a b) eqn:Hab; try done.
    constructor; [by apply IH|]. constructor. by apply idx_compare_Lt.
  - induction 1 as [|a K HK IH Ha]; [done|].
    destruct K as [|b K]; [done|]. simpl.
    apply Forall_cons in Ha as [Hab _].
    apply idx_compare_Lt in Hab. by rewrite Hab.
Qed.

Lemma nonneg_Forall (l : list Z) : nonneg l = true ↔ Forall (λ x, 0 ≤ x) l.
Proof.
  unfold nonneg. rewrite forallb_forall, Forall_forall.
  split; intros Hl x Hx.
  - apply list_elem_of_In, Hl in Hx. lia.
  - apply list_elem_of_In, Hl in Hx. lia.
Qed.

Lemma foldr_max_is_max (x : Z) (l : list Z) : is_max (foldr Z.max x l) (x :: l).
Proof.
  induction l as [|y l [Hin Hle]]; simpl.
  - split; [apply list_elem_of_here|]. repeat constructor. lia.
  - split.
    + rewrite elem_of_cons in Hin. rewrite !elem_of_cons.
      destruct (Z.max_spec y (foldr Z.max x l)) as [[_ ->]|[_ ->]]; tauto.
    + apply Forall_cons in Hle as [Hx Hl].
      repeat constructor; try lia.
      eapply Forall_impl; [exact Hl|]. simpl; lia.
Qed.

Lemma is_max_unique (m m' : Z) (l : list Z) :
  is_max m l → is_max m' l → m = m'.
Proof.
  intros [Hin Hle] [Hin' Hle'].
  rewrite Forall_forall in Hle, Hle'.
  apply Hle' in Hin. apply Hle in Hin'. lia.
Qed.

Lemma infer_size_is_max (m : Z) (l : list Z) :
  is_max m l → infer_size l = m + 1.
Proof.
  destruct l as [|x l]; intros Hm.
  - destruct Hm as [Hin _]. by apply elem_of_nil in Hin.
  - simpl. f_equal. eapply is_max_unique; [apply foldr_max_is_max|done].
Qed.

Lemma is_max_ext (m : Z) (l l' : list Z) :
  (∀ x, x ∈ l ↔ x ∈ l') → is_max m l → is_max m l'.
Proof.
  intros Heq [Hin Hle]. split; [by apply Heq|].
  rewrite Forall_forall in *. intros x Hx. by apply Hle, Heq.
Qed.

End OrderFacts.

Section TensorFacts.
Context {V : Type} `{Dtype V}.

Lemma keys_insert_entry (k : index) (v : V) (E : list (index * V)) :
  keys (insert_entry k v E) = insert_key k (keys E).
Proof.
  induction E as [|[d w] E IH]; simpl; [done|].
  destruct (idx_compare k d); simpl; by rewrite ?IH.
Qed.

Lemma keys_fold_insert_entry (E acc : list (index * V)) :
  keys (fold_left (λ acc e, insert_entry e.1 e.2 acc) E acc)
  = fold_left (λ acc k, insert_key k acc) (keys E) (keys acc).
Proof.
  revert acc; induction E as [|e E IH]; intros acc; simpl; [done|].
  by rewrite IH, keys_insert_entry.
Qed.

(** The coordinates of a coalesced tensor depend on the coordinates of its
    entries only, not on their values. *)
Lemma keys_coalesce_entries (E : list (index * V)) :
  keys (coalesce_entries E) = coalesce_keys (keys E).
Proof. apply keys_fold_insert_entry. Qed.

Lemma keys_zip (r c : list Z) (v : list V) :
  length r = length c → length v = length r →
  keys (zip (zip r c) v) = zip r c.
Proof.
  intros Hrc Hv. unfold keys. apply fst_zip.
  rewrite length_zip_with. lia.
Qed.

Lemma length_ones (n : nat) : length (ones (V:=V) n) = n.
Proof. apply length_replicate. Qed.

Lemma elem_of_zip_fst (r c : list Z) (x : Z) :
  length r = length c → x ∈ (zip r c).*1 ↔ x ∈ r.
Proof. intros Hrc. rewrite fst_zip; [done|lia]. Qed.

Lemma elem_of_zip_snd (r c : list Z) (x : Z) :
  length r = length c → x ∈ (zip r c).*2 ↔ x ∈ c.
Proof. intros Hrc. rewrite snd_zip; [done|lia]. Qed.

Lemma elem_of_coalesce_keys_fst (K : list index) (x : Z) :
  x ∈ (coalesce_keys K).*1 ↔ x ∈ K.*1.
Proof.
  rewrite !list_elem_of_fmap.
  split; intros (k & -> & Hk); exists k; split; try done;
    by apply elem_of_coalesce_keys.
Qed.

Lemma elem_of_coalesce_keys_snd (K : list index) (x : Z) :
  x ∈ (coalesce_keys K).*2 ↔ x ∈ K.*2.
Proof.
  rewrite !list_elem_of_fmap.
  split; intros (k & -> & Hk); exists k; split; try done;
    by apply elem_of_coalesce_keys.
Qed.

Lemma fits_Forall (l : list Z) :
  fits l = true ↔ Forall (λ x, x < int64_max) l.
Proof.
  unfold fits. rewrite forallb_forall, Forall_forall.
  split; intros Hl x Hx.
  - apply list_elem_of_In, Hl in Hx. lia.
  - apply list_elem_of_In, Hl in Hx. lia.
Qed.

Lemma fits_ext (l l' : list Z) :
  (∀ x, x ∈ l ↔ x ∈ l') → fits l = true → fits l' = true.
Proof.
  rewrite !fits_Forall, !Forall_forall. intros Heq Hl x Hx.
  by apply Hl, Heq.
Qed.

Lemma nonneg_ext (l l' : list Z) :
  (∀ x, x ∈ l ↔ x ∈ l') → nonneg l = true → nonneg l' = true.
Proof.
  rewrite !nonneg_Forall, !Forall_forall. intros Heq Hl x Hx.
  by apply Hl, Heq.
Qed.

End TensorFacts.

(** * Properties of the constructor *)

Section InitFacts.
Context {V : Type} `{Dtype V}.

Lemma init_inv (row col : list Z) (val : option (list V)) (A : SparseMatrix V) :
  __init__ row col val = Ok A →
  length row = length col ∧ length (init_val row val) = length row
  ∧ nonneg row = true ∧ nonneg col = true
  ∧ A = {| _row := row; _col := col; _val := init_val row val;
           adj := coalesce {| coo_entries := zip (zip row col) (init_val row val);
                              coo_size := (infer_size row, infer_size col);
                              coo_coalesced := false |} |}.
Proof.
  unfold __init__, cat_index, sparse_coo_tensor.
  destruct (decide (length row = length col)) as [Hrc|]; simpl; [|done].
  destruct (decide (length (init_val row val) = length row)) as [Hv|]; simpl;
    [|done].
  destruct (nonneg row) eqn:Hr; simpl; [|done].
  destruct (nonneg col) eqn:Hc; simpl; [|done].
  destruct (fits row && fits col); simpl; [|done].
  intros [= <-]. done.
Qed.

(** The indices of a constructed matrix leave room for the inferred
    size. *)
Lemma init_fits (row col : list Z) (val : option (list V)) (A : SparseMatrix V) :
  __init__ row col val = Ok A → fits row = true ∧ fits col = true.
Proof.
  unfold __init__, cat_index, sparse_coo_tensor.
  destruct (decide (length row = length col)) as [Hrc|]; simpl; [|done].
  destruct (decide (length (init_val row val) = length row)) as [Hv|]; simpl;
    [|done].
  destruct (nonneg row && nonneg col); simpl; [|done].
  destruct (fits row), (fits col); simpl; done.
Qed.

Lemma init_ok (row col : list Z) (val : option (list V)) :
  length row = length col → length (init_val row val) = length row →
  nonneg row = true → nonneg col = true →
  fits row = true → fits col = true →
  __init__ row col val
  = Ok {| _row := row; _col := col; _val := init_val row val;
          adj := coalesce {| coo_entries := zip (zip row col) (init_val row val);
                             coo_size := (infer_size row, infer_size col);
                             coo_coalesced := false |} |}.
Proof.
  intros Hrc Hv Hr Hc Hfr Hfc.
  unfold __init__, cat_index, sparse_coo_tensor.
  rewrite decide_True by done. simpl.
  rewrite decide_True by done. simpl.
  by rewrite Hr, Hc, Hfr, Hfc.
Qed.

(** The index arrays the accessors return are the coalesced input
    coordinates. *)
Lemma init_row_col (row col : list Z) (val : option (list V)) (A : SparseMatrix V) :
  __init__ row col val = Ok A →
  SpMatrix.row A = (coalesce_keys (zip row col)).*1
  ∧ SpMatrix.col A = (coalesce_keys (zip row col)).*2.
Proof.
  intros (Hrc & Hv & _ & _ & ->)%init_inv.
  unfold SpMatrix.row, SpMatrix.col, Torch.indices; simpl.
  by rewrite keys_coalesce_entries, keys_zip.
Qed.

(** What the constructor stores is coalesced. *)
Lemma init_coalesced (row col : list Z) (val : option (list V)) (A : SparseMatrix V) :
  __init__ row col val = Ok A → is_coalesced (adj A) = true.
Proof.
  intros HA. destruct (init_row_col _ _ _ _ HA) as [Hrow Hcol].
  destruct (init_fits _ _ _ _ HA) as [Hfr Hfc].
  apply init_inv in HA as (Hrc & Hv & Hr & Hc & HA).
  unfold is_coalesced. fold (SpMatrix.row A) (SpMatrix.col A).
  rewrite Hrow, Hcol.
  rewrite !andb_true_iff; split_and!.
  - subst A; simpl. apply ascending_sorted.
    rewrite keys_coalesce_entries. apply coalesce_keys_sorted.
  - eapply nonneg_ext; [|exact Hr]. intros x.
    by rewrite elem_of_coalesce_keys_fst, elem_of_zip_fst.
  - eapply nonneg_ext; [|exact Hc]. intros x.
    by rewrite elem_of_coalesce_keys_snd, elem_of_zip_snd.
  - eapply fits_ext; [|exact Hfr]. intros x.
    by rewrite elem_of_coalesce_keys_fst, elem_of_zip_fst.
  - eapply fits_ext; [|exact Hfc]. intros x.
    by rewrite elem_of_coalesce_keys_snd, elem_of_zip_snd.
Qed.

End InitFacts.

Section AccessorFacts.
Context {V : Type} `{Dtype V}.

Lemma length_row (A : SparseMatrix V) : length (SpMatrix.row A) = nnz A.
Proof.
  unfold SpMatrix.row, nnz, Torch.indices, _nnz, keys; simpl.
  by rewrite !length_fmap.
Qed.

Lemma length_col (A : SparseMatrix V) : length (SpMatrix.col A) = nnz A.
Proof.
  unfold SpMatrix.col, nnz, Torch.indices, _nnz, keys; simpl.
  by rewrite !length_fmap.
Qed.

Lemma zip_row_col (A : SparseMatrix V) :
  zip (SpMatrix.row A) (SpMatrix.col A) = keys (coo_entries (adj A)).
Proof. apply zip_fst_snd. Qed.

(** The constructor raises only what the tensor library raises. *)
Lemma init_no_assertion (row col : list Z) (val : option (list V)) :
  __init__ row col val ≠ Raise AssertionError.
Proof.
  unfold __init__, cat_index, sparse_coo_tensor.
  repeat (case_decide; simpl; try done).
  by destruct (nonneg row && nonneg col && (fits row && fits col)).
Qed.

Lemma new_ok (row col : list Z) (val : option (list V)) (A : SparseMatrix V)
    (h : heap (SparseMatrix V)) :
  __init__ row col val = Ok A → new row col val h = (Ok (length h), h ++ [A]).
Proof. intros HA. unfold new, bind, lift. by rewrite HA. Qed.

Lemma new_raise (row col : list Z) (val : option (list V)) (e : exn)
    (h : heap (SparseMatrix V)) :
  __init__ row col val = Raise e → new row col val h = (Raise e, h).
Proof. intros HA. unfold new, bind, lift. by rewrite HA. Qed.

(** Rebuilding a matrix from the index arrays of a coalesced one gives the
    same index arrays. *)
Lemma init_from_coalesced (A : SparseMatrix V) (x : list V) :
  is_coalesced (adj A) = true → length x = nnz A →
  ∃ B, __init__ (SpMatrix.row A) (SpMatrix.col A) (Some x) = Ok B
       ∧ SpMatrix.row B = SpMatrix.row A ∧ SpMatrix.col B = SpMatrix.col A
       ∧ SpMatrix.val B = x.
Proof.
  intros Hco Hx. unfold is_coalesced in Hco.
  fold (SpMatrix.row A) (SpMatrix.col A) in Hco.
  rewrite !andb_true_iff in Hco. destruct Hco as [[[Hasc Hr] Hc] [Hfr Hfc]].
  pose proof (init_ok (SpMatrix.row A) (SpMatrix.col A) (Some x)) as HB.
  simpl in HB. rewrite length_row, length_col in HB.
  specialize (HB eq_refl Hx Hr Hc Hfr Hfc).
  eexists; split; [exact HB|].
  destruct (init_row_col _ _ _ _ HB) as [-> ->].
  rewrite zip_row_col, coalesce_keys_id by (by apply ascending_sorted).
  done.
Qed.

End AccessorFacts.

(** * The specification's claims *)

Section Claims.
Context {V : Type} `{Dtype V}.
Implicit Types (A B : SparseMatrix V) (h : heap (SparseMatrix V)).
Implicit Types (self : ref) (x : list V).

(** C2: [coo()], [csr()] and [csc()] return the receiver itself and leave
    every object as it was; none of them builds a compressed-row or
    compressed-column representation. *)
Theorem views_return_self self h :
  coo self h = (Ok self, h)
  ∧ csr self h = (Ok self, h)
  ∧ csc self h = (Ok self, h).
Proof. by split_and!. Qed.

(** C4: assigning [A.val = x] raises AssertionError exactly when
    [len(x)] differs from [A.nnz], and so does the copy [A(x)]; a failed
    check leaves the store untouched. *)
Theorem length_assertions self h A x :
  h !! self = Some A →
  ((set_val self x h).1 = Raise AssertionError ↔ length x ≠ nnz A)
  ∧ ((__call__ self x h).1 = Raise AssertionError ↔ length x ≠ nnz A)
  ∧ (length x ≠ nnz A →
     (set_val self x h).2 = h ∧ (__call__ self x h).2 = h).
Proof.
  intros HA. unfold set_val, __call__, bind, deref, assert. rewrite HA.
  destruct (bool_decide_reflect (length x = nnz A)) as [Hx|Hx]; simpl.
  - split_and!; [done| |done].
    split; [|done].
    destruct (__init__ (SpMatrix.row A) (SpMatrix.col A) (Some x)) as [B|e] eqn:HB.
    + by rewrite (new_ok _ _ _ _ _ HB).
    + rewrite (new_raise _ _ _ _ _ HB). simpl. intros [= ->].
      by apply init_no_assertion in HB.
  - by split_and!.
Qed.

(** C6: the shape of a matrix built from row and column index arrays is
    (largest row index + 1, largest column index + 1), and the largest
    indices of the coalesced representation are those of the input. *)
Theorem shape_max_plus_one (row col : list Z) (val : option (list V)) A
    (mr mc : Z) :
  __init__ row col val = Ok A → is_max mr row → is_max mc col →
  shape A = (mr + 1, mc + 1)
  ∧ is_max mr (SpMatrix.row A) ∧ is_max mc (SpMatrix.col A).
Proof.
  intros HA Hmr Hmc.
  destruct (init_row_col _ _ _ _ HA) as [-> ->].
  apply init_inv in HA as (Hrc & _ & _ & _ & ->).
  split_and!.
  - unfold shape; simpl.
    by rewrite (infer_size_is_max _ _ Hmr), (infer_size_is_max _ _ Hmc).
  - eapply is_max_ext; [|exact Hmr]. intros i.
    by rewrite elem_of_coalesce_keys_fst, elem_of_zip_fst.
  - eapply is_max_ext; [|exact Hmc]. intros i.
    by rewrite elem_of_coalesce_keys_snd, elem_of_zip_snd.
Qed.

(** C7: when the value argument is omitted, [val] is an all-ones array as
    long as the input index arrays. *)
Theorem default_val_all_ones (row col : list Z) A :
  __init__ row col None = Ok A →
  SpMatrix.val A = replicate (length row) vone
  ∧ length (SpMatrix.val A) = length row
  ∧ length (SpMatrix.val A) = length col.
Proof.
  intros (Hrc & Hv & _ & _ & ->)%init_inv. unfold SpMatrix.val; simpl in *.
  split_and!; [done|done|congruence].
Qed.

(** C8: for [len(x) = A.nnz], the copy [A(x)] allocates a new object,
    distinct from [A] and leaving [A] as it was, whose [row] and [col] are
    those of [A] and whose [val] is [x]. *)
Theorem call_copies_pattern self h A x :
  h !! self = Some A → is_coalesced (adj A) = true → length x = nnz A →
  ∃ r h' B,
    __call__ self x h = (Ok r, h')
    ∧ r ≠ self ∧ h' !! r = Some B ∧ h' !! self = Some A
    ∧ SpMatrix.row B = SpMatrix.row A ∧ SpMatrix.col B = SpMatrix.col A
    ∧ SpMatrix.val B = x.
Proof.
  intros HA Hco Hx.
  destruct (init_from_coalesced A x Hco Hx) as (B & HB & Hrow & Hcol & Hval).
  exists (length h), (h ++ [B]), B.
  pose proof (lookup_lt_Some _ _ _ HA) as Hlt.
  split_and!; try done.
  - unfold __call__, bind, deref, assert. rewrite HA.
    rewrite bool_decide_eq_true_2 by done. by apply new_ok.
  - lia.
  - rewrite lookup_app_r by done. by rewrite Nat.sub_diag.
  - by apply lookup_app_l_Some.
Qed.

(** C9: for a matrix built from [row], [col], [val] (whatever value array
    it was assigned since), [indices(format, return_shuffle)] with format
    'COO' and no shuffle returns the coalesced coordinate index tensor:
    two rows of equal length whose columns are the input coordinates, each
    once, in strictly increasing (row, column) order, the same arrays the
    [row] and [col] accessors return. Every other combination of format
    and return_shuffle raises NotImplementedError, and only those do. *)
Theorem indices_coo_only (row col : list Z) (val : option (list V)) A0 A
    (format : string) (return_shuffle : bool) :
  __init__ row col val = Ok A0 → adj A = adj A0 →
  (format = "COO" ∧ return_shuffle = false →
   ∃ rs cs : list Z,
     SpMatrix.indices A format return_shuffle = Ok (rs, cs)
     ∧ length rs = length cs
     ∧ StronglySorted key_lt (zip rs cs)
     ∧ (∀ r c, (r, c) ∈ zip rs cs ↔ (r, c) ∈ zip row col)
     ∧ rs = SpMatrix.row A ∧ cs = SpMatrix.col A)
  ∧ (SpMatrix.indices A format return_shuffle = Raise NotImplementedError
     ↔ ¬ (format = "COO" ∧ return_shuffle = false)).
Proof.
  intros HA0 Hadj. split.
  - intros [-> ->]. exists (SpMatrix.row A), (SpMatrix.col A).
    assert (zip (SpMatrix.row A) (SpMatrix.col A)
            = coalesce_keys (zip row col)) as Hzip.
    { unfold SpMatrix.row, SpMatrix.col. rewrite Hadj.
      destruct (init_row_col _ _ _ _ HA0) as [Hr Hc].
      unfold SpMatrix.row, SpMatrix.col in Hr, Hc. rewrite Hr, Hc.
      apply zip_fst_snd. }
    rewrite Hzip. split_and!; try done.
    + by rewrite length_row, length_col.
    + apply coalesce_keys_sorted.
    + intros r c. apply elem_of_coalesce_keys.
  - unfold SpMatrix.indices.
    destruct (bool_decide_reflect (format = "COO")) as [->|Hf],
      return_shuffle; simpl; (split; [intros Heq|intros Hn]);
      first [done | by destruct Hn | by intros [? ?]].
Qed.

(** C10: a well-lengthed assignment [A.val = x] replaces the stored value
    array only: the coalesced representation [adj] is the one built at
    construction, so [dense()] returns what it returned before. *)
Theorem set_val_keeps_adj self h A x :
  h !! self = Some A → length x = nnz A →
  ∃ A',
    set_val self x h = (Ok (), <[self := A']> h)
    ∧ <[self := A']> h !! self = Some A'
    ∧ SpMatrix.val A' = x
    ∧ adj A' = adj A ∧ dense A' = dense A.
Proof.
  intros HA Hx. eexists. split_and!.
  - unfold set_val, bind, deref, assert, store. rewrite HA.
    by rewrite bool_decide_eq_true_2.
  - apply list_lookup_insert_eq. by eapply lookup_lt_Some.
  - done.
  - done.
  - done.
Qed.

End Claims.

(** * Compressed-row input *)

Section CsrFacts.
Context {V : Type} `{Dtype V}.
Implicit Types (A B : SparseMatrix V) (h : heap (SparseMatrix V)).

Lemma csr_rows_length (crow : list Z) (i a z : Z) :
  nondecreasing crow = true → head crow = Some a → list.last crow = Some z →
  a ≤ z ∧ length (csr_rows i crow) = Z.to_nat (z - a).
Proof.
  revert i a; induction crow as [|c crow IH]; intros i a Hnd Hh Hl; [done|].
  simpl in Hh. injection Hh as ->.
  destruct crow as [|b crow].
  - simpl in Hl. injection Hl as ->. simpl. split; [lia|].
    by rewrite Z.sub_diag.
  - apply andb_true_iff in Hnd as [Hab Hnd].
    rewrite last_cons_cons in Hl.
    destruct (IH (i + 1) b Hnd eq_refl Hl) as [Hbz Hlen].
    split; [lia|].
    change (csr_rows i (a :: b :: crow))
      with (replicate (Z.to_nat (b - a)) i ++ csr_rows (i + 1) (b :: crow)).
    rewrite length_app, length_replicate, Hlen. lia.
Qed.

Lemma csr_rows_ge (crow : list Z) (i : Z) :
  Forall (λ r, i ≤ r) (csr_rows i crow).
Proof.
  revert i; induction crow as [|a crow IH]; intros i; [constructor|].
  destruct crow as [|b crow]; [constructor|].
  change (csr_rows i (a :: b :: crow))
    with (replicate (Z.to_nat (b - a)) i ++ csr_rows (i + 1) (b :: crow)).
  apply Forall_app. split.
  - apply Forall_replicate. lia.
  - eapply Forall_impl; [apply IH|]. simpl; lia.
Qed.

Lemma sparse_csr_tensor_inv (crow col : list Z) (val : list V)
    (t : csr_tensor V) :
  sparse_csr_tensor crow col val = Ok t →
  length val = length col ∧ head crow = Some 0
  ∧ list.last crow = Some (Z.of_nat (length col))
  ∧ nondecreasing crow = true ∧ nonneg col = true
  ∧ t = {| crow_indices := crow; col_indices := col; csr_values := val;
           csr_size := (Z.of_nat (length crow) - 1, infer_size col) |}.
Proof.
  unfold sparse_csr_tensor.
  case_decide as Hv; [|done].
  destruct (bool_decide_reflect (head crow = Some 0)) as [Hh|]; [|done].
  destruct (bool_decide_reflect
              (list.last crow = Some (Z.of_nat (length col)))) as [Hl|];
    [|done].
  simpl. destruct (nondecreasing crow); [|done].
  simpl. destruct (nonneg col); [|done].
  by intros [= <-].
Qed.

(** The expanded row indices of a valid CSR tensor pair up with its column
    indices and are not negative. *)
Lemma csr_rows_valid (crow col : list Z) (val : list V) (t : csr_tensor V) :
  sparse_csr_tensor crow col val = Ok t →
  length (csr_rows 0 crow) = length col ∧ nonneg (csr_rows 0 crow) = true.
Proof.
  intros (_ & Hh & Hl & Hnd & _ & _)%sparse_csr_tensor_inv. split.
  - destruct (csr_rows_length crow 0 _ _ Hnd Hh Hl) as [_ ->]. lia.
  - apply nonneg_Forall, csr_rows_ge.
Qed.

Lemma new_inv (row col : list Z) (val : option (list V)) h (r : ref)
    (h' : heap (SparseMatrix V)) :
  new row col val h = (Ok r, h') →
  ∃ A, __init__ row col val = Ok A ∧ r = length h ∧ h' = h ++ [A].
Proof.
  unfold new, bind, lift, alloc.
  destruct (__init__ row col val) as [A|e]; [|done].
  intros [= <- <-]. by exists A.
Qed.

(** What [to_sparse_coo().coalesce()] hands to the constructor: the
    conversion marks its result coalesced, so the entries stay in storage
    order, each column index with the row that owns it. *)
Lemma csr_expansion (crow col : list Z) (val : list V) (t : csr_tensor V) :
  sparse_csr_tensor crow col val = Ok t →
  Torch.indices (coalesce (to_sparse_coo t)) = (csr_rows 0 crow, col).
Proof.
  intros Ht. destruct (csr_rows_valid _ _ _ _ Ht) as [Hlen _].
  apply sparse_csr_tensor_inv in Ht as (Hv & _ & _ & _ & _ & ->).
  unfold Torch.indices, coalesce, to_sparse_coo; simpl.
  rewrite keys_zip by congruence.
  by rewrite fst_zip, snd_zip by lia.
Qed.

Lemma create_from_csr_unfold (indptr idx : list Z) (val : option (list V))
    h (t : csr_tensor V) :
  sparse_csr_tensor indptr idx (ones (V:=V) (length idx)) = Ok t →
  create_from_csr indptr idx val h = new (csr_rows 0 indptr) idx val h.
Proof.
  intros Ht. unfold create_from_csr, bind at 1, lift at 1. rewrite Ht.
  cbv zeta. by rewrite (csr_expansion _ _ _ _ Ht).
Qed.

Lemma create_from_csc_unfold (indptr idx : list Z) (val : option (list V))
    h (t : csr_tensor V) :
  sparse_csr_tensor indptr idx (ones (V:=V) (length idx)) = Ok t →
  create_from_csc indptr idx val h = new idx (csr_rows 0 indptr) val h.
Proof.
  intros Ht. unfold create_from_csc, bind at 1, lift at 1. rewrite Ht.
  cbv zeta. by rewrite (csr_expansion _ _ _ _ Ht).
Qed.

Lemma create_from_csr_inv (indptr idx : list Z) (val : option (list V)) h
    (r : ref) (h' : heap (SparseMatrix V)) :
  create_from_csr indptr idx val h = (Ok r, h') →
  ∃ t A,
    sparse_csr_tensor indptr idx (ones (V:=V) (length idx)) = Ok t
    ∧ __init__ (csr_rows 0 indptr) idx val = Ok A
    ∧ r = length h ∧ h' = h ++ [A].
Proof.
  destruct (sparse_csr_tensor indptr idx (ones (V:=V) (length idx)))
    as [t|e] eqn:Ht.
  - rewrite (create_from_csr_unfold _ _ _ _ _ Ht).
    intros (A & HA & -> & ->)%new_inv. by eauto 6.
  - unfold create_from_csr, bind at 1, lift at 1. by rewrite Ht.
Qed.

Lemma create_from_csc_inv (indptr idx : list Z) (val : option (list V)) h
    (r : ref) (h' : heap (SparseMatrix V)) :
  create_from_csc indptr idx val h = (Ok r, h') →
  ∃ t B,
    sparse_csr_tensor indptr idx (ones (V:=V) (length idx)) = Ok t
    ∧ __init__ idx (csr_rows 0 indptr) val = Ok B
    ∧ r = length h ∧ h' = h ++ [B].
Proof.
  destruct (sparse_csr_tensor indptr idx (ones (V:=V) (length idx)))
    as [t|e] eqn:Ht.
  - rewrite (create_from_csc_unfold _ _ _ _ _ Ht).
    intros (B & HB & -> & ->)%new_inv. by eauto 6.
  - unfold create_from_csc, bind at 1, lift at 1. by rewrite Ht.
Qed.

Lemma lookup_new h (B : SparseMatrix V) (r : ref) A :
  r = length h → (h ++ [B]) !! r = Some A → A = B.
Proof.
  intros -> HA. rewrite lookup_app_r, Nat.sub_diag in HA by done.
  by injection HA.
Qed.

(** C5: a matrix built from compressed-row input has the non-zero pattern
    of the matrix built directly from the coordinates the row pointer
    expands to; [indptr=[0,1,2,5]], [indices=[1,2,0,1,2]] gives rows
    [0,1,2,2,2] and columns [1,2,0,1,2]. *)
Theorem csr_same_pattern_as_coo (indptr idx : list Z) (val : option (list V))
    h (r : ref) (h' : heap (SparseMatrix V)) A :
  create_from_csr indptr idx val h = (Ok r, h') → h' !! r = Some A →
  (∃ B, create_from_coo (csr_rows 0 indptr) idx None h
          = (Ok (length h), h ++ [B])
        ∧ SpMatrix.row A = SpMatrix.row B ∧ SpMatrix.col A = SpMatrix.col B)
  ∧ (∃ C, create_from_csr [0; 1; 2; 5] [1; 2; 0; 1; 2] None h
            = (Ok (length h), h ++ [C])
          ∧ SpMatrix.row C = [0; 1; 2; 2; 2]
          ∧ SpMatrix.col C = [1; 2; 0; 1; 2]).
Proof.
  intros Hcsr HA. split.
  - apply create_from_csr_inv in Hcsr as (t & A' & _ & HA' & -> & ->).
    apply lookup_new in HA as ->; [|done].
    destruct (init_fits _ _ _ _ HA') as [Hfr Hfc].
    pose proof HA' as (Hlen & _ & Hnn & Hidx & _)%init_inv.
    pose proof (init_ok (csr_rows 0 indptr) idx None Hlen
                  (length_ones _) Hnn Hidx Hfr Hfc) as HB.
    eexists. split; [by apply new_ok|].
    destruct (init_row_col _ _ _ _ HA') as [-> ->].
    by destruct (init_row_col _ _ _ _ HB) as [-> ->].
  - exists {| _row := [0; 1; 2; 2; 2]; _col := [1; 2; 0; 1; 2];
              _val := replicate 5 vone;
              adj := {| coo_entries :=
                          [(0, 1, vone); (1, 2, vone); (2, 0, vone);
                           (2, 1, vone); (2, 2, vone)];
                        coo_size := (3, 3);
               coo_coalesced := true |} |}.
    split_and!; reflexivity.
Qed.

End CsrFacts.

(** * Input already in coalesced order *)

Section Readback.
Context {V : Type} `{Dtype V}.

Lemma sorted_lookup_lt (K : list index) (i j : nat) (a b : index) :
  StronglySorted key_lt K → K !! i = Some a → K !! j = Some b →
  (i < j)%nat → key_lt a b.
Proof.
  intros HS; revert i j.
  induction HS as [|d K HS IH Hd]; intros i j Hi Hj Hlt; [done|].
  destruct j as [|j]; [lia|]. simpl in Hj.
  destruct i as [|i]; simpl in Hi.
  - injection Hi as ->. rewrite Forall_forall in Hd.
    by eapply Hd, list_elem_of_lookup_2.
  - eapply IH; [done..|lia].
Qed.

Lemma insert_entry_last (k : index) (v : V) (E : list (index * V)) :
  Forall (λ c, key_lt c k) (keys E) → insert_entry k v E = E ++ [(k, v)].
Proof.
  induction E as [|[d w] E IH]; simpl; intros HF; [done|].
  apply Forall_cons in HF as [Hd HF].
  destruct (idx_compare_spec k d) as [->|Hlt|Hgt].
  - by apply key_lt_irrefl in Hd.
  - by apply key_lt_asym in Hd.
  - by rewrite IH.
Qed.

Lemma fold_insert_entry_append (E acc : list (index * V)) :
  StronglySorted key_lt (keys (acc ++ E)) →
  fold_left (λ acc e, insert_entry e.1 e.2 acc) E acc = acc ++ E.
Proof.
  revert acc; induction E as [|[k v] E IH]; intros acc HS; simpl.
  - by rewrite app_nil_r.
  - rewrite insert_entry_last.
    + rewrite IH; rewrite <- app_assoc; done.
    + unfold keys in *. rewrite fmap_app in HS.
      apply Forall_forall. intros c Hc.
      eapply StronglySorted_app_1_elem_of; [exact HS|done|]. by left.
Qed.

(** Coalescing entries whose coordinates are already strictly increasing
    changes nothing. *)
Lemma coalesce_entries_id (E : list (index * V)) :
  StronglySorted key_lt (keys E) → coalesce_entries E = E.
Proof.
  intros HS. unfold coalesce_entries. by rewrite fold_insert_entry_append.
Qed.

(** When the input coordinates are strictly increasing, the accessors
    return the input arrays and there is one value per stored entry. *)
Lemma init_ascending_readback (row col : list Z) (val : list V)
    (A : SparseMatrix V) :
  __init__ row col (Some val) = Ok A → ascending (zip row col) = true →
  SpMatrix.row A = row ∧ SpMatrix.col A = col ∧ SpMatrix.val A = val
  ∧ length (SpMatrix.val A) = nnz A.
Proof.
  intros HA Hasc. destruct (init_row_col _ _ _ _ HA) as [Hrow Hcol].
  apply init_inv in HA as (Hrc & Hv & _ & _ & HA).
  rewrite coalesce_keys_id in Hrow, Hcol by (by apply ascending_sorted).
  rewrite fst_zip in Hrow by lia. rewrite snd_zip in Hcol by lia.
  split_and!; try done.
  - by subst A.
  - rewrite <- length_row, Hrow. by subst A.
Qed.

(** ... and every value read back is the value stored at the coordinate
    read back at the same position. *)
Lemma init_ascending_aligned (row col : list Z) (val : list V)
    (A : SparseMatrix V) (k : nat) (r c : Z) (v : V) :
  __init__ row col (Some val) = Ok A → ascending (zip row col) = true →
  SpMatrix.row A !! k = Some r → SpMatrix.col A !! k = Some c →
  SpMatrix.val A !! k = Some v →
  stored_at A r c = Some v.
Proof.
  intros HA Hasc.
  destruct (init_ascending_readback _ _ _ _ HA Hasc) as (-> & -> & -> & _).
  apply init_inv in HA as (Hrc & Hv & _ & _ & ->). simpl in Hv.
  apply ascending_sorted in Hasc.
  intros Hr Hc Hval. unfold stored_at; simpl.
  rewrite coalesce_entries_id by (by rewrite keys_zip).
  assert (zip (zip row col) val !! k = Some (r, c, v)) as Hk.
  { apply lookup_zip_with_Some. exists (r, c), v. split_and!; try done.
    apply lookup_zip_with_Some. by exists r, c. }
  rewrite (proj2 (list_find_Some _ _ k (r, c, v))); [done|].
  split_and!; try done.
  intros j y Hj Hjk Hy.
  apply lookup_zip_with_Some in Hj as (a & b & -> & Ha & _). simpl in Hy.
  assert (zip row col !! k = Some (r, c)) as Hkk.
  { apply lookup_zip_with_Some. by exists r, c. }
  pose proof (sorted_lookup_lt _ _ _ _ _ Hasc Ha Hkk Hjk) as Hlt.
  rewrite Hy in Hlt. by apply key_lt_irrefl in Hlt.
Qed.

End Readback.

(** * The docstring examples *)

Example doc_matrix_init :
  __init__ [1; 1; 2] [2; 4; 3] None = Ok Examples.doc_matrix.
Proof. reflexivity. Qed.

Example doc_matrix_accessors :
  shape Examples.doc_matrix = (3, 5)
  ∧ SpMatrix.row Examples.doc_matrix = [1; 1; 2]
  ∧ SpMatrix.val Examples.doc_matrix = [1; 1; 1]
  ∧ nnz Examples.doc_matrix = 3%nat.
Proof. by split_and!. Qed.

Example test_matrix_init :
  __init__ [1; 1; 2] [2; 4; 3] (Some [1; 1; 2]) = Ok Examples.test_matrix.
Proof. reflexivity. Qed.

Example csr_matrix_create :
  create_from_csr [0; 1; 2; 5] [1; 2; 0; 1; 2] None []
  = (Ok 0%nat, [Examples.csr_matrix]).
Proof. reflexivity. Qed.

Example csc_matrix_create :
  create_from_csc [0; 1; 3; 5] [2; 0; 2; 1; 2] None []
  = (Ok 0%nat, [Examples.csc_matrix])
  ∧ shape Examples.csc_matrix = (3, 3)
  ∧ SpMatrix.row Examples.csc_matrix = [0; 1; 2; 2; 2]
  ∧ SpMatrix.val Examples.csc_matrix = [1; 1; 1; 1; 1]
  ∧ nnz Examples.csc_matrix = 5%nat.
Proof. split_and!; reflexivity. Qed.

(** * Inputs on which the value array and the index arrays disagree *)

(** C1, on rows [1, 0], columns [0, 0], values [10, 20]: [row] and [col]
    come back in coalesced order, [val] comes back in input order, so
    [val[0]] is 10 while the value stored at ([row[0]], [col[0]]) is 20. *)
Theorem val_misaligned_on_unsorted_input :
  ∃ A : SparseMatrix Z,
    __init__ [1; 0] [0; 0] (Some [10; 20]) = Ok A
    ∧ SpMatrix.row A = [0; 1] ∧ SpMatrix.col A = [0; 0]
    ∧ SpMatrix.val A = [10; 20]
    ∧ stored_at A 0 0 = Some 20 ∧ stored_at A 1 0 = Some 10
    ∧ dense A = [[20]; [10]].
Proof. exists Examples.unsorted_matrix. split_and!; reflexivity. Qed.

(** C3, on rows [0, 0], columns [0, 0] and no values: the two entries are
    merged into one, so [nnz], [row] and [col] have length 1 while [val]
    keeps the two ones it was given by default. *)
Theorem lengths_differ_on_duplicate_input :
  ∃ A : SparseMatrix Z,
    create_from_coo [0; 0] [0; 0] None [] = (Ok 0%nat, [A])
    ∧ nnz A = 1%nat
    ∧ length (SpMatrix.row A) = 1%nat ∧ length (SpMatrix.col A) = 1%nat
    ∧ length (SpMatrix.val A) = 2%nat.
Proof. exists Examples.duplicate_matrix. split_and!; reflexivity. Qed.

(** * Instances of the claims *)

Lemma length_assertions_witness :
  [Examples.doc_matrix] !! 0%nat = Some Examples.doc_matrix
  ∧ (((set_val 0%nat [7; 7] [Examples.doc_matrix]).1 = Raise AssertionError
      ↔ length [7; 7] ≠ nnz Examples.doc_matrix)
     ∧ ((__call__ 0%nat [7; 7] [Examples.doc_matrix]).1 = Raise AssertionError
        ↔ length [7; 7] ≠ nnz Examples.doc_matrix)
     ∧ (length [7; 7] ≠ nnz Examples.doc_matrix →
        (set_val 0%nat [7; 7] [Examples.doc_matrix]).2 = [Examples.doc_matrix]
        ∧ (__call__ 0%nat [7; 7] [Examples.doc_matrix]).2
          = [Examples.doc_matrix])).
Proof.
  split; [reflexivity|].
  exact (length_assertions 0%nat [Examples.doc_matrix] Examples.doc_matrix
           [7; 7] eq_refl).
Defined.

Lemma csr_same_pattern_as_coo_witness :
  create_from_csr [0; 1; 2; 5] [1; 2; 0; 1; 2] None []
  = (Ok 0%nat, [Examples.csr_matrix])
  ∧ [Examples.csr_matrix] !! 0%nat = Some Examples.csr_matrix
  ∧ ∃ B : SparseMatrix Z,
      create_from_coo (csr_rows 0 [0; 1; 2; 5]) [1; 2; 0; 1; 2] None []
      = (Ok 0%nat, [B])
      ∧ SpMatrix.row Examples.csr_matrix = SpMatrix.row B
      ∧ SpMatrix.col Examples.csr_matrix = SpMatrix.col B.
Proof.
  split_and!; [reflexivity|reflexivity|].
  exact (proj1 (csr_same_pattern_as_coo [0; 1; 2; 5] [1; 2; 0; 1; 2] None []
                  0%nat [Examples.csr_matrix] Examples.csr_matrix
                  eq_refl eq_refl)).
Defined.

Lemma shape_max_plus_one_witness :
  __init__ [1; 1; 2] [2; 4; 3] None = Ok Examples.doc_matrix
  ∧ is_max 2 [1; 1; 2] ∧ is_max 4 [2; 4; 3]
  ∧ shape Examples.doc_matrix = (2 + 1, 4 + 1).
Proof.
  assert (is_max 2 [1; 1; 2]) as Hr.
  { split; [by apply (list_elem_of_lookup_2 _ 2%nat)|].
    repeat constructor; lia. }
  assert (is_max 4 [2; 4; 3]) as Hc.
  { split; [by apply (list_elem_of_lookup_2 _ 1%nat)|].
    repeat constructor; lia. }
  split_and!; [reflexivity|exact Hr|exact Hc|].
  exact (proj1 (shape_max_plus_one [1; 1; 2] [2; 4; 3] None
                  Examples.doc_matrix 2 4 eq_refl Hr Hc)).
Defined.

Lemma default_val_all_ones_witness :
  __init__ [1; 1; 2] [2; 4; 3] None = Ok Examples.doc_matrix
  ∧ SpMatrix.val Examples.doc_matrix = replicate (length [1; 1; 2]) 1.
Proof.
  split; [reflexivity|].
  exact (proj1 (default_val_all_ones [1; 1; 2] [2; 4; 3] Examples.doc_matrix
                  eq_refl)).
Defined.

Lemma call_copies_pattern_witness :
  [Examples.test_matrix] !! 0%nat = Some Examples.test_matrix
  ∧ is_coalesced (adj Examples.test_matrix) = true
  ∧ length [0; 0; 0] = nnz Examples.test_matrix
  ∧ ∃ (r : ref) (h' : heap (SparseMatrix Z)) (B : SparseMatrix Z),
      __call__ 0%nat [0; 0; 0] [Examples.test_matrix] = (Ok r, h')
      ∧ r ≠ 0%nat ∧ h' !! r = Some B
      ∧ h' !! 0%nat = Some Examples.test_matrix
      ∧ SpMatrix.row B = SpMatrix.row Examples.test_matrix
      ∧ SpMatrix.col B = SpMatrix.col Examples.test_matrix
      ∧ SpMatrix.val B = [0; 0; 0].
Proof.
  split_and!; [reflexivity|reflexivity|reflexivity|].
  exact (call_copies_pattern 0%nat [Examples.test_matrix] Examples.test_matrix
           [0; 0; 0] eq_refl eq_refl eq_refl).
Defined.

Lemma set_val_keeps_adj_witness :
  [Examples.test_matrix] !! 0%nat = Some Examples.test_matrix
  ∧ length [1; 1; 1] = nnz Examples.test_matrix
  ∧ ∃ A' : SparseMatrix Z,
      set_val 0%nat [1; 1; 1] [Examples.test_matrix]
      = (Ok (), <[0%nat := A']> [Examples.test_matrix])
      ∧ <[0%nat := A']> [Examples.test_matrix] !! 0%nat = Some A'
      ∧ SpMatrix.val A' = [1; 1; 1]
      ∧ adj A' = adj Examples.test_matrix
      ∧ dense A' = dense Examples.test_matrix.
Proof.
  split_and!; [reflexivity|reflexivity|].
  exact (set_val_keeps_adj 0%nat [Examples.test_matrix] Examples.test_matrix
           [1; 1; 1] eq_refl eq_refl).
Defined.

Lemma indices_coo_only_witness :
  __init__ [1; 0] [0; 0] (Some [10; 20]) = Ok Examples.unsorted_matrix
  ∧ adj Examples.unsorted_matrix = adj Examples.unsorted_matrix
  ∧ ("COO" = "COO" ∧ false = false)
  ∧ ∃ rs cs : list Z,
      SpMatrix.indices Examples.unsorted_matrix "COO" false = Ok (rs, cs)
      ∧ length rs = length cs
      ∧ StronglySorted key_lt (zip rs cs)
      ∧ (∀ r c, (r, c) ∈ zip rs cs ↔ (r, c) ∈ zip [1; 0] [0; 0])
      ∧ rs = SpMatrix.row Examples.unsorted_matrix
      ∧ cs = SpMatrix.col Examples.unsorted_matrix.
Proof.
  split; [reflexivity|]. split; [reflexivity|]. split; [by split|].
  exact (proj1 (indices_coo_only [1; 0] [0; 0] (Some [10; 20])
                  Examples.unsorted_matrix Examples.unsorted_matrix
                  "COO" false eq_refl eq_refl) (conj eq_refl eq_refl)).
Defined.

(** * Further properties of the constructor *)

#[export] Instance Z_dtype_assoc : DtypeAssoc Z.
Proof. intros a b c. simpl. lia. Qed.

Section PatternFacts.

Lemma sorted_NoDup (K : list index) : StronglySorted key_lt K → NoDup K.
Proof.
  induction 1 as [|k K HK IH Hk]; constructor; [|done].
  intros Hin. rewrite Forall_forall in Hk.
  by apply Hk, key_lt_irrefl in Hin.
Qed.

Lemma length_insert_key (k : index) (K : list index) :
  StronglySorted key_lt K →
  length (insert_key k K)
  = if decide (k ∈ K) then length K else S (length K).
Proof.
  induction 1 as [|d K HK IH Hd].
  - simpl insert_key. by destruct (decide (k ∈ [])) as [?%elem_of_nil|].
  - rewrite Forall_forall in Hd. simpl insert_key.
    destruct (idx_compare_spec k d) as [->|Hlt|Hgt].
    + destruct (decide (d ∈ d :: K)) as [|Hn]; [done|].
      exfalso. apply Hn. left.
    + destruct (decide (k ∈ d :: K)) as [Hin|]; [|done].
      apply elem_of_cons in Hin as [->|Hin];
        [by apply key_lt_irrefl in Hlt|].
      apply Hd in Hin. by apply (key_lt_asym _ _ Hlt) in Hin.
    + cbn [length]. rewrite IH.
      destruct (decide (k ∈ K)) as [Hin|Hin],
        (decide (k ∈ d :: K)) as [Hin'|Hin']; try done.
      * exfalso. apply Hin'. by right.
      * apply elem_of_cons in Hin' as [->|Hin'];
          [by apply key_lt_irrefl in Hgt|done].
Qed.

Lemma length_fold_insert_key (K acc : list index) :
  StronglySorted key_lt acc →
  (length (fold_left (λ acc k, insert_key k acc) K acc)
   ≤ length K + length acc)%nat
  ∧ (length (fold_left (λ acc k, insert_key k acc) K acc)
     = (length K + length acc)%nat
     ↔ NoDup K ∧ ∀ k, k ∈ K → k ∉ acc).
Proof.
  revert acc; induction K as [|k K IH]; intros acc Hacc; simpl.
  - split; [done|]. split; [|done]. intros _. split; [constructor|].
    intros k Hk. by apply elem_of_nil in Hk.
  - destruct (IH _ (insert_key_sorted k _ Hacc)) as [Hle Heq].
    pose proof (length_insert_key k acc Hacc) as Hlen.
    destruct (decide (k ∈ acc)) as [Hin|Hin].
    + split; [lia|]. split; [lia|].
      intros [_ Hdis]. exfalso. by apply (Hdis k), Hin; left.
    + split; [lia|].
      rewrite Hlen in Heq.
      replace (length K + S (length acc))%nat
        with (S (length K + length acc)) in Heq by lia.
      rewrite Heq, NoDup_cons. split.
      * intros [HK Hdis]. split_and!; [|done|].
        -- intros HkK. apply (Hdis k HkK), elem_of_insert_key. by left.
        -- intros c [->|Hc]%elem_of_cons; [done|].
           intros Hcacc. apply (Hdis c Hc), elem_of_insert_key. by right.
      * intros [[HkK HK] Hdis]. split; [done|].
        intros c Hc [->|Hcacc]%elem_of_insert_key; [done|].
        by apply (Hdis c); [right|].
Qed.

(** Coalescing never adds a coordinate, and keeps their number exactly
    when no coordinate is repeated. *)
Lemma length_coalesce_keys (K : list index) :
  (length (coalesce_keys K) ≤ length K)%nat
  ∧ (length (coalesce_keys K) = length K ↔ NoDup K).
Proof.
  destruct (length_fold_insert_key K [] ltac:(constructor)) as [Hle Heq].
  simpl in *. rewrite Nat.add_0_r in Hle, Heq. split; [done|].
  unfold coalesce_keys. rewrite Heq. split; [by intros [? _]|].
  intros HK. split; [done|]. intros k _. apply not_elem_of_nil.
Qed.

Lemma elem_of_infer_size (x : Z) (l : list Z) : x ∈ l → x < infer_size l.
Proof.
  destruct l as [|y l]; [by intros ?%elem_of_nil|]. intros Hx. simpl.
  destruct (foldr_max_is_max y l) as [_ Hle].
  rewrite Forall_forall in Hle. apply Hle in Hx. lia.
Qed.

Lemma infer_size_ext (l l' : list Z) :
  (∀ x, x ∈ l ↔ x ∈ l') → infer_size l = infer_size l'.
Proof.
  intros Heq. destruct l as [|y l].
  - destruct l' as [|y' l']; [done|].
    exfalso. eapply not_elem_of_nil, Heq. left.
  - pose proof (foldr_max_is_max y l) as Hm.
    rewrite (infer_size_is_max _ _ Hm).
    by rewrite (infer_size_is_max _ _ (is_max_ext _ _ _ Heq Hm)).
Qed.

End PatternFacts.

Section ConstructorProperties.
Context {V : Type} `{Dtype V}.
Implicit Types (A B : SparseMatrix V) (h : heap (SparseMatrix V)).

Lemma init_zip_row_col (row col : list Z) (val : option (list V)) A :
  __init__ row col val = Ok A →
  zip (SpMatrix.row A) (SpMatrix.col A) = coalesce_keys (zip row col).
Proof.
  intros HA. destruct (init_row_col _ _ _ _ HA) as [-> ->].
  apply zip_fst_snd.
Qed.

Lemma nnz_length_zip A :
  nnz A = length (zip (SpMatrix.row A) (SpMatrix.col A)).
Proof.
  rewrite length_zip_with, length_row, length_col. lia.
Qed.

(** The coordinates read back through [row] and [col] are the input
    coordinates, each listed once, in strictly increasing (row, column)
    order. *)
Theorem accessors_list_input_coordinates (row col : list Z)
    (val : option (list V)) A :
  __init__ row col val = Ok A →
  StronglySorted key_lt (zip (SpMatrix.row A) (SpMatrix.col A))
  ∧ NoDup (zip (SpMatrix.row A) (SpMatrix.col A))
  ∧ ∀ r c, (r, c) ∈ zip (SpMatrix.row A) (SpMatrix.col A)
           ↔ (r, c) ∈ zip row col.
Proof.
  intros HA. rewrite (init_zip_row_col _ _ _ _ HA).
  pose proof (coalesce_keys_sorted (zip row col)) as HS.
  split_and!; [done|by apply sorted_NoDup|].
  intros r c. apply elem_of_coalesce_keys.
Qed.

(** [nnz] counts the distinct input coordinates: it never exceeds the
    length of the input, equals it exactly when no coordinate is repeated,
    and is zero exactly for empty input. *)
Theorem nnz_counts_distinct_coordinates (row col : list Z)
    (val : option (list V)) A :
  __init__ row col val = Ok A →
  (nnz A ≤ length row)%nat
  ∧ (nnz A = length row ↔ NoDup (zip row col))
  ∧ (nnz A = 0%nat ↔ row = []).
Proof.
  intros HA. rewrite nnz_length_zip, (init_zip_row_col _ _ _ _ HA).
  apply init_inv in HA as (Hrc & _).
  assert (length (zip row col) = length row) as Hlen
    by (rewrite length_zip_with; lia).
  destruct (length_coalesce_keys (zip row col)) as [Hle Heq].
  change index with (Z * Z)%type in *.
  rewrite Hlen in Hle, Heq. split_and!; [done|done|].
  split.
  - intros H0. destruct row as [|r row]; [done|].
    destruct col as [|c col]; [done|]. exfalso.
    assert ((r, c) ∈ coalesce_keys (zip (r :: row) (c :: col))) as Hin
      by (apply elem_of_coalesce_keys; left).
    apply length_zero_iff_nil in H0. rewrite H0 in Hin.
    by apply elem_of_nil in Hin.
  - by intros ->.
Qed.

(** Every index read back lies inside the shape. *)
Theorem indices_within_shape (row col : list Z) (val : option (list V)) A :
  __init__ row col val = Ok A →
  Forall (λ r, 0 ≤ r < (shape A).1) (SpMatrix.row A)
  ∧ Forall (λ c, 0 ≤ c < (shape A).2) (SpMatrix.col A).
Proof.
  intros HA. destruct (init_row_col _ _ _ _ HA) as [-> ->].
  apply init_inv in HA as (Hrc & _ & Hr & Hc & ->). unfold shape; simpl.
  apply nonneg_Forall in Hr, Hc. rewrite Forall_forall in Hr, Hc.
  split; apply Forall_forall; intros x Hx.
  - apply elem_of_coalesce_keys_fst, elem_of_zip_fst in Hx; [|done].
    split; [by apply Hr|by apply elem_of_infer_size].
  - apply elem_of_coalesce_keys_snd, elem_of_zip_snd in Hx; [|done].
    split; [by apply Hc|by apply elem_of_infer_size].
Qed.

Lemma in_range_Forall (l : list Z) :
  nonneg l = true ∧ fits l = true ↔ Forall (λ i, 0 ≤ i < int64_max) l.
Proof.
  rewrite nonneg_Forall, fits_Forall, !Forall_forall. split.
  - intros [Hn Hf] i Hi. split; [by apply Hn|by apply Hf].
  - intros Hl. split; intros i Hi; by apply Hl.
Qed.

(** The constructor raises the tensor library's RuntimeError whenever the
    two index arrays differ in length, the number of values is not the
    number of index pairs, an index is negative, or an index is the
    largest 64-bit integer (the size inferred from it does not fit); it
    raises nothing else. So a matrix it returns was given index arrays of
    equal length, one value per index pair, and indices from 0 up to
    2^63 - 2. *)
Theorem init_failures (row col : list Z) (val : option (list V)) :
  (¬ (length row = length col ∧ length (init_val row val) = length row
      ∧ Forall (λ i, 0 ≤ i < int64_max) row
      ∧ Forall (λ i, 0 ≤ i < int64_max) col) →
   __init__ row col val = Raise RuntimeError)
  ∧ (∀ e, __init__ row col val = Raise e → e = RuntimeError)
  ∧ (∀ A, __init__ row col val = Ok A →
       length row = length col ∧ length (init_val row val) = length row
       ∧ Forall (λ i, 0 ≤ i < int64_max) row
       ∧ Forall (λ i, 0 ≤ i < int64_max) col).
Proof.
  split_and!.
  - intros Hn. unfold __init__, cat_index, sparse_coo_tensor.
    case_decide as Hrc; simpl; [|done].
    case_decide as Hv; simpl; [|done].
    destruct (nonneg row) eqn:Hr; simpl; [|done].
    destruct (nonneg col) eqn:Hc; simpl; [|done].
    destruct (fits row) eqn:Hfr; simpl; [|done].
    destruct (fits col) eqn:Hfc; simpl; [|done].
    exfalso. apply Hn. split_and!; try done; by apply in_range_Forall.
  - intros e. unfold __init__, cat_index, sparse_coo_tensor.
    case_decide; simpl; [|by intros [= <-]].
    case_decide; simpl; [|by intros [= <-]].
    destruct (nonneg row && nonneg col && (fits row && fits col)); simpl;
      [done|by intros [= <-]].
  - intros A HA. destruct (init_fits _ _ _ _ HA) as [Hfr Hfc].
    apply init_inv in HA as (Hrc & Hv & Hr & Hc & _).
    split_and!; try done; by apply in_range_Forall.
Qed.

End ConstructorProperties.

(** * Dense materialisation *)

Section DenseFacts.
Context {V : Type} `{DtypeAssoc V}.
Implicit Types (A B : SparseMatrix V) (E : list (index * V)).

Lemma entry_at_fold E (i j : Z) :
  entry_at E i j = fold_left (add_at i j) E vzero.
Proof. reflexivity. Qed.

Lemma fold_add_at_skip E (i j : Z) (a : V) :
  Forall (λ k, k ≠ (i, j)) (keys E) → fold_left (add_at i j) E a = a.
Proof.
  revert a; induction E as [|[d w] E IH]; intros a HE; simpl; [done|].
  apply Forall_cons in HE as [Hd HE]. simpl in Hd.
  unfold add_at at 2; simpl. rewrite decide_False by done. by apply IH.
Qed.


Lemma add_at_eq (i j : Z) (a v : V) : add_at i j a ((i, j), v) = vadd a v.
Proof. unfold add_at; simpl. by rewrite decide_True. Qed.

Lemma add_at_ne (i j : Z) (a : V) (k : index) (v : V) :
  k ≠ (i, j) → add_at i j a (k, v) = a.
Proof. intros Hk. unfold add_at; simpl. by rewrite decide_False. Qed.

Lemma sorted_tail_differs (d : index) (K : list index) :
  Forall (key_lt d) K → Forall (λ k, k ≠ d) K.
Proof.
  intros Hd. eapply Forall_impl; [exact Hd|].
  intros k Hk ->. by apply key_lt_irrefl in Hk.
Qed.

(** Adding an entry to coalesced entries adds its value at its coordinate
    and changes the value at no other. *)
Lemma fold_add_at_insert E (k : index) (v : V) (i j : Z) (a : V) :
  StronglySorted key_lt (keys E) →
  fold_left (add_at i j) (insert_entry k v E) a
  = add_at i j (fold_left (add_at i j) E a) (k, v).
Proof.
  revert a; induction E as [|[d w] E IH]; intros a HS; [done|].
  change (keys ((d, w) :: E)) with (d :: keys E) in HS.
  apply StronglySorted_cons in HS as [Hd HS].
  cbn [insert_entry].
  destruct (idx_compare_spec k d) as [->|Hlt|Hgt]; cbn [fold_left].
  - pose proof (sorted_tail_differs _ _ Hd) as Hne.
    destruct (decide (d = (i, j))) as [->|Hdij].
    + rewrite !add_at_eq, !fold_add_at_skip by done. apply vadd_assoc.
    + by rewrite !add_at_ne.
  - destruct (decide (k = (i, j))) as [->|Hkij].
    + assert (Forall (λ c, c ≠ (i, j)) (keys E)) as Hne.
      { eapply Forall_impl; [exact Hd|]. intros c Hc ->.
        by apply (key_lt_asym _ _ Hlt). }
      assert (d ≠ (i, j)) as Hdij
        by (intros ->; by apply key_lt_irrefl in Hlt).
      rewrite !add_at_eq, !(add_at_ne _ _ _ d) by done.
      by rewrite !fold_add_at_skip.
    + by rewrite !(add_at_ne _ _ _ k).
  - by rewrite IH.
Qed.

Lemma fold_add_at_coalesce E (acc : list (index * V)) (i j : Z) (a : V) :
  StronglySorted key_lt (keys acc) →
  fold_left (add_at i j)
    (fold_left (λ acc e, insert_entry e.1 e.2 acc) E acc) a
  = fold_left (add_at i j) E (fold_left (add_at i j) acc a).
Proof.
  revert acc; induction E as [|[k v] E IH]; intros acc HS; simpl; [done|].
  rewrite IH.
  - by rewrite fold_add_at_insert.
  - rewrite keys_insert_entry. by apply insert_key_sorted.
Qed.

(** Coalescing does not change the value held at any coordinate. *)
Lemma entry_at_coalesce E (i j : Z) :
  entry_at (coalesce_entries E) i j = entry_at E i j.
Proof.
  rewrite !entry_at_fold. unfold coalesce_entries.
  rewrite fold_add_at_coalesce; [done|constructor].
Qed.

Lemma to_dense_lookup (t : coo_tensor V) (i j : Z) :
  0 ≤ i < (coo_size t).1 → 0 ≤ j < (coo_size t).2 →
  ∃ line, to_dense t !! Z.to_nat i = Some line
          ∧ line !! Z.to_nat j = Some (entry_at (coo_entries t) i j).
Proof.
  intros Hi Hj. unfold to_dense. eexists. split.
  - rewrite list_lookup_fmap, lookup_seqZ_lt by lia. simpl.
    by rewrite Z2Nat.id by lia.
  - rewrite list_lookup_fmap, lookup_seqZ_lt by lia. simpl.
    by rewrite Z2Nat.id by lia.
Qed.

Lemma to_dense_dims (t : coo_tensor V) :
  length (to_dense t) = Z.to_nat (coo_size t).1
  ∧ Forall (λ line, length line = Z.to_nat (coo_size t).2) (to_dense t).
Proof.
  unfold to_dense. split.
  - by rewrite length_fmap, length_seqZ.
  - apply Forall_fmap, Forall_forall. intros i _. simpl.
    by rewrite length_fmap, length_seqZ.
Qed.

(** [dense()] of a matrix built from [row], [col], [val] has the shape of
    the matrix and holds, at every position, the sum of the input values
    given for that coordinate (zero when there is none): repeated
    coordinates are added up. *)
Theorem dense_sums_input (row col : list Z) (val : option (list V)) A :
  __init__ row col val = Ok A →
  length (dense A) = Z.to_nat (shape A).1
  ∧ Forall (λ line, length line = Z.to_nat (shape A).2) (dense A)
  ∧ ∀ i j, 0 ≤ i < (shape A).1 → 0 ≤ j < (shape A).2 →
      ∃ line, dense A !! Z.to_nat i = Some line
              ∧ line !! Z.to_nat j
                = Some (entry_at (zip (zip row col) (init_val row val)) i j).
Proof.
  intros (_ & _ & _ & _ & ->)%init_inv. unfold dense, shape. cbn [adj].
  set (t := coalesce {| coo_entries := zip (zip row col) (init_val row val);
                        coo_size := (infer_size row, infer_size col);
                        coo_coalesced := false |}).
  destruct (to_dense_dims t) as [Hlen Hlines].
  split_and!; [exact Hlen|exact Hlines|].
  intros i j Hi Hj.
  destruct (to_dense_lookup t i j Hi Hj) as (line & Hline & Hj').
  exists line. split; [done|].
  unfold t in Hj'. simpl in Hj'. by rewrite entry_at_coalesce in Hj'.
Qed.

End DenseFacts.

(** * Reading back, copying and replacing values *)

Section ValueProperties.
Context {V : Type} `{Dtype V}.
Implicit Types (A B : SparseMatrix V) (h : heap (SparseMatrix V)).
Implicit Types (self : ref) (x : list V).

Lemma init_size_inferred (row col : list Z) (val : option (list V)) A :
  __init__ row col val = Ok A → size_inferred (adj A) = true.
Proof.
  intros HA. destruct (init_row_col _ _ _ _ HA) as [Hrow Hcol].
  apply init_inv in HA as (Hrc & _ & _ & _ & HA).
  unfold size_inferred. fold (SpMatrix.row A) (SpMatrix.col A).
  apply bool_decide_eq_true. rewrite Hrow, Hcol. subst A; simpl. f_equal.
  - apply infer_size_ext. intros i.
    by rewrite elem_of_coalesce_keys_fst, elem_of_zip_fst.
  - apply infer_size_ext. intros i.
    by rewrite elem_of_coalesce_keys_snd, elem_of_zip_snd.
Qed.

Lemma coalesced_ascending A :
  is_coalesced (adj A) = true →
  ascending (zip (SpMatrix.row A) (SpMatrix.col A)) = true.
Proof.
  unfold is_coalesced. rewrite !andb_true_iff. intros [[[Hasc _] _] _].
  by rewrite zip_row_col.
Qed.

(** What a successful [self(x)] did. *)
Lemma call_inv self x h (r : ref) (h' : heap (SparseMatrix V)) A :
  h !! self = Some A → __call__ self x h = (Ok r, h') →
  length x = nnz A
  ∧ ∃ B, __init__ (SpMatrix.row A) (SpMatrix.col A) (Some x) = Ok B
         ∧ r = length h ∧ h' = h ++ [B].
Proof.
  intros HA. unfold __call__, bind at 1, deref. rewrite HA.
  unfold bind at 1, assert.
  destruct (bool_decide_reflect (length x = nnz A)) as [Hx|Hx]; [|done].
  by intros (B & HB & -> & ->)%new_inv; eauto.
Qed.

(** Input given in strictly increasing (row, column) order reads back
    unchanged: [row], [col] and [val] are the arguments, there is one value
    per stored entry, and [val[k]] is the value stored at
    ([row[k]], [col[k]]). *)
Theorem ascending_input_reads_back (row col : list Z) (val : list V) A :
  __init__ row col (Some val) = Ok A → ascending (zip row col) = true →
  SpMatrix.row A = row ∧ SpMatrix.col A = col ∧ SpMatrix.val A = val
  ∧ length (SpMatrix.val A) = nnz A
  ∧ ∀ (k : nat) (r c : Z) (v : V),
      row !! k = Some r → col !! k = Some c → val !! k = Some v →
      stored_at A r c = Some v.
Proof.
  intros HA Hasc.
  destruct (init_ascending_readback _ _ _ _ HA Hasc)
    as (Hrow & Hcol & Hval & Hlen).
  split_and!; try done.
  intros k r c v Hr Hc Hv.
  eapply (init_ascending_aligned _ _ _ _ k); try done; congruence.
Qed.

(** In the copy [A(x)] the values are aligned with the coordinates:
    [x[k]] is stored at ([row[k]], [col[k]]), and there are [nnz] of each. *)
Theorem copy_is_aligned self h A x (r : ref) (h' : heap (SparseMatrix V)) B :
  h !! self = Some A → is_coalesced (adj A) = true →
  __call__ self x h = (Ok r, h') → h' !! r = Some B →
  length (SpMatrix.val B) = nnz B ∧ nnz B = nnz A
  ∧ ∀ (k : nat) (i j : Z) (v : V),
      SpMatrix.row B !! k = Some i → SpMatrix.col B !! k = Some j →
      x !! k = Some v → stored_at B i j = Some v.
Proof.
  intros HA Hco Hcall HB.
  destruct (call_inv _ _ _ _ _ _ HA Hcall) as (Hx & B' & HB' & -> & ->).
  apply lookup_new in HB as ->; [|done].
  pose proof (coalesced_ascending _ Hco) as Hasc.
  destruct (init_ascending_readback _ _ _ _ HB' Hasc)
    as (Hrow & Hcol & Hval & Hlen).
  split_and!; [done| |].
  - by rewrite <- length_row, Hrow, length_row.
  - intros k i j v Hi Hj Hv.
    eapply (init_ascending_aligned _ _ _ _ k); try done; congruence.
Qed.

(** The copy [A(x)] has the shape of [A] and is again coalesced with an
    inferred size, so it can be copied in turn. *)
Theorem copy_keeps_shape self h A x (r : ref) (h' : heap (SparseMatrix V)) B :
  h !! self = Some A →
  is_coalesced (adj A) = true → size_inferred (adj A) = true →
  __call__ self x h = (Ok r, h') → h' !! r = Some B →
  shape B = shape A
  ∧ is_coalesced (adj B) = true ∧ size_inferred (adj B) = true.
Proof.
  intros HA Hco Hsz Hcall HB.
  destruct (call_inv _ _ _ _ _ _ HA Hcall) as (Hx & B' & HB' & -> & ->).
  apply lookup_new in HB as ->; [|done].
  split_and!.
  - apply bool_decide_eq_true in Hsz.
    apply init_inv in HB' as (_ & _ & _ & _ & ->).
    unfold shape; simpl. by rewrite Hsz.
  - by eapply init_coalesced.
  - by eapply init_size_inferred.
Qed.

(** A successful assignment [A.val = x] changes the value array of [A] and
    nothing else: no object is added, every other object is untouched, and
    the index arrays, [nnz] and the shape of [A] are as before; afterwards
    there are [nnz] values. *)
Theorem set_val_frame self h A x (h' : heap (SparseMatrix V)) :
  h !! self = Some A → set_val self x h = (Ok (), h') →
  length h' = length h
  ∧ (∀ r : ref, r ≠ self → h' !! r = h !! r)
  ∧ ∃ A', h' !! self = Some A'
          ∧ SpMatrix.val A' = x ∧ length (SpMatrix.val A') = nnz A'
          ∧ SpMatrix.row A' = SpMatrix.row A
          ∧ SpMatrix.col A' = SpMatrix.col A
          ∧ nnz A' = nnz A ∧ shape A' = shape A.
Proof.
  intros HA. unfold set_val, bind, deref, assert, store. rewrite HA.
  destruct (bool_decide_reflect (length x = nnz A)) as [Hx|Hx]; [|done].
  intros [= <-]. split_and!.
  - apply length_insert.
  - intros r Hr. by apply list_lookup_insert_ne.
  - eexists. split.
    + apply list_lookup_insert_eq. by eapply lookup_lt_Some.
    + by split_and!.
Qed.

End ValueProperties.

(** * Compressed-row and compressed-column input, continued *)

Section CompressedFacts.
Context {V : Type} `{Dtype V}.
Implicit Types (A B : SparseMatrix V) (h : heap (SparseMatrix V)).

Lemma zip_snd_fst (K : list index) : zip K.*2 K.*1 = prod_swap <$> K.
Proof. induction K as [|[a b] K IH]; csimpl; [done|]. by f_equal. Qed.

Lemma elem_of_prod_swap (K : list index) (r c : Z) :
  (r, c) ∈ prod_swap <$> K ↔ (c, r) ∈ K.
Proof.
  rewrite list_elem_of_fmap. split.
  - intros ([a b] & [= -> ->] & Hin). done.
  - intros Hin. by exists (c, r).
Qed.

Lemma NoDup_prod_swap (K : list index) : NoDup K → NoDup (prod_swap <$> K).
Proof.
  intros HK. apply NoDup_fmap_2_strong; [|done].
  by intros [a b] [c d] _ _ [= -> ->].
Qed.

Lemma zip_swap (l k : list Z) : zip l k = prod_swap <$> zip k l.
Proof.
  revert k; induction l as [|a l IH]; intros [|b k]; csimpl; try done.
  by f_equal.
Qed.

(** Exchanging rows and columns does not change how many distinct
    coordinates there are. *)
Lemma length_coalesce_keys_swap (K : list index) :
  length (coalesce_keys (prod_swap <$> K)) = length (coalesce_keys K).
Proof.
  transitivity (length (prod_swap <$> coalesce_keys K));
    [|apply length_fmap].
  apply Permutation_length, NoDup_Permutation.
  - apply sorted_NoDup, coalesce_keys_sorted.
  - apply NoDup_prod_swap, sorted_NoDup, coalesce_keys_sorted.
  - intros [a b].
    by rewrite elem_of_coalesce_keys, !elem_of_prod_swap,
      elem_of_coalesce_keys.
Qed.

Lemma nondecreasing_lookup_ge (l : list Z) (a x : Z) (n : nat) :
  nondecreasing l = true → head l = Some a → l !! n = Some x → a ≤ x.
Proof.
  revert a n; induction l as [|c l IH]; intros a n Hnd Hh Hn; [done|].
  simpl in Hh. injection Hh as ->.
  destruct n as [|n]; simpl in Hn; [injection Hn as ->; lia|].
  destruct l as [|b l]; [done|].
  apply andb_true_iff in Hnd as [Hab Hnd].
  specialize (IH b n Hnd eq_refl Hn). lia.
Qed.

(** Entry [k] of a compressed tensor belongs to row [n] exactly when [k]
    lies between [crow[n]] and [crow[n+1]]. *)
Lemma csr_rows_lookup (crow : list Z) (i a r : Z) (k : nat) :
  nondecreasing crow = true → head crow = Some a →
  csr_rows i crow !! k = Some r
  ↔ ∃ (n : nat) (lo hi : Z),
      r = i + Z.of_nat n ∧ crow !! n = Some lo ∧ crow !! S n = Some hi
      ∧ lo ≤ a + Z.of_nat k < hi.
Proof.
  revert i a k r; induction crow as [|c crow IH]; intros i a k r Hnd Hh;
    [done|].
  simpl in Hh. injection Hh as ->.
  destruct crow as [|b crow].
  - simpl. split; [done|]. by intros (n & lo & hi & _ & _ & ? & _).
  - apply andb_true_iff in Hnd as [Hab Hnd]. apply Z.leb_le in Hab.
    change (csr_rows i (a :: b :: crow))
      with (replicate (Z.to_nat (b - a)) i ++ csr_rows (i + 1) (b :: crow)).
    destruct (decide (k < Z.to_nat (b - a))%nat) as [Hk|Hk].
    + rewrite lookup_app_l by (by rewrite length_replicate).
      rewrite lookup_replicate. split.
      * intros [-> _]. exists 0%nat, a, b. split_and!; try done; lia.
      * intros (n & lo & hi & -> & Hlo & Hhi & Hrange).
        destruct n as [|n]; [split; [f_equal; lia|done]|].
        simpl in Hlo.
        pose proof (nondecreasing_lookup_ge (b :: crow) b _ _ Hnd eq_refl Hlo).
        lia.
    + rewrite lookup_app_r by (rewrite length_replicate; lia).
      rewrite length_replicate.
      rewrite (IH (i + 1) b _ r Hnd eq_refl). split.
      * intros (n & lo & hi & -> & Hlo & Hhi & Hrange).
        exists (S n), lo, hi. split_and!; try done; lia.
      * intros (n & lo & hi & -> & Hlo & Hhi & Hrange).
        destruct n as [|n].
        -- simpl in Hlo, Hhi. injection Hlo as <-. injection Hhi as <-. lia.
        -- exists n, lo, hi. split_and!; try done; lia.
Qed.

Lemma infer_size_le (l : list Z) (N : Z) :
  0 ≤ N → Forall (λ x, x < N) l → infer_size l ≤ N.
Proof.
  intros HN Hl. destruct l as [|y l]; [done|]. simpl.
  destruct (foldr_max_is_max y l) as [Hin _].
  rewrite Forall_forall in Hl. apply Hl in Hin. lia.
Qed.

Lemma csr_rows_lt (crow : list Z) :
  nondecreasing crow = true → is_Some (head crow) →
  Forall (λ r, r < Z.of_nat (length crow) - 1) (csr_rows 0 crow).
Proof.
  intros Hnd [a Ha]. apply Forall_forall. intros r Hr.
  apply list_elem_of_lookup in Hr as [k Hk].
  apply (csr_rows_lookup _ _ _ _ _ Hnd Ha) in Hk
    as (n & lo & hi & -> & _ & Hhi & _).
  apply lookup_lt_Some in Hhi. lia.
Qed.

End CompressedFacts.

Section CompressedProperties.
Context {V : Type} `{Dtype V}.
Implicit Types (A B : SparseMatrix V) (h : heap (SparseMatrix V)).

(** The coordinates of a matrix built from CSR input. *)
Lemma csr_zip_row_col (indptr idx : list Z) (val : option (list V)) h
    (r : ref) (h' : heap (SparseMatrix V)) A :
  create_from_csr indptr idx val h = (Ok r, h') → h' !! r = Some A →
  zip (SpMatrix.row A) (SpMatrix.col A)
  = coalesce_keys (zip (csr_rows 0 indptr) idx).
Proof.
  intros (t & A' & _ & HA' & -> & ->)%create_from_csr_inv HA.
  apply lookup_new in HA as ->; [|done].
  apply (init_zip_row_col _ _ _ _ HA').
Qed.

(** The docstring of [create_from_csr]: the column indices of the entries
    of row [n] are [indices[indptr[n] : indptr[n+1]]]. *)
Theorem csr_rows_are_slices (indptr idx : list Z) (val : option (list V)) h
    (r : ref) (h' : heap (SparseMatrix V)) A (n : nat) (c : Z) :
  create_from_csr indptr idx val h = (Ok r, h') → h' !! r = Some A →
  (Z.of_nat n, c) ∈ zip (SpMatrix.row A) (SpMatrix.col A)
  ↔ ∃ (lo hi : Z) (k : nat),
      indptr !! n = Some lo ∧ indptr !! S n = Some hi
      ∧ lo ≤ Z.of_nat k < hi ∧ idx !! k = Some c.
Proof.
  intros Hcsr HA. rewrite (csr_zip_row_col _ _ _ _ _ _ _ Hcsr HA).
  apply create_from_csr_inv in Hcsr as (t & _ & Ht & _).
  apply sparse_csr_tensor_inv in Ht as (_ & Hh & _ & Hnd & _ & _).
  rewrite elem_of_coalesce_keys, list_elem_of_lookup. split.
  - intros (k & (x & y & [= <- <-] & Hx & Hy)%lookup_zip_with_Some).
    apply (csr_rows_lookup _ _ _ _ _ Hnd Hh) in Hx
      as (n' & lo & hi & Hn & Hlo & Hhi & Hrange).
    assert (n' = n) as -> by lia.
    exists lo, hi, k. split_and!; try done; lia.
  - intros (lo & hi & k & Hlo & Hhi & Hrange & Hc).
    exists k. apply lookup_zip_with_Some. exists (Z.of_nat n), c.
    split_and!; try done.
    apply (csr_rows_lookup _ _ _ _ _ Hnd Hh).
    exists n, lo, hi. split_and!; try done; lia.
Qed.

(** The shape of a matrix built from CSR input is inferred from the entries
    present: it has at most [len(indptr) - 1] rows (empty rows at the end
    are not counted) and largest column index + 1 columns. *)
Theorem csr_shape_inferred (indptr idx : list Z) (val : option (list V)) h
    (r : ref) (h' : heap (SparseMatrix V)) A :
  create_from_csr indptr idx val h = (Ok r, h') → h' !! r = Some A →
  (shape A).1 ≤ Z.of_nat (length indptr) - 1
  ∧ (shape A).2 = infer_size idx
  ∧ Forall (λ i, 0 ≤ i < Z.of_nat (length indptr) - 1) (SpMatrix.row A).
Proof.
  intros (t & A' & Ht & HA' & -> & ->)%create_from_csr_inv HA.
  apply lookup_new in HA as ->; [|done].
  destruct (csr_rows_valid _ _ _ _ Ht) as [Hlen Hnn].
  apply sparse_csr_tensor_inv in Ht as (_ & Hh & _ & Hnd & _ & _).
  pose proof (csr_rows_lt indptr Hnd ltac:(by eexists)) as Hlt.
  assert (0 ≤ Z.of_nat (length indptr) - 1) as HN
    by (destruct indptr; [done|simpl; lia]).
  destruct (init_row_col _ _ _ _ HA') as [Hrow _].
  apply init_inv in HA' as (_ & _ & _ & _ & ->).
  split_and!.
  - unfold shape; simpl. by apply infer_size_le.
  - done.
  - rewrite Hrow. apply Forall_forall. intros i Hi.
    apply elem_of_coalesce_keys_fst, elem_of_zip_fst in Hi; [|done].
    pose proof (csr_rows_ge indptr 0) as Hge.
    rewrite Forall_forall in Hlt, Hge. split; [by apply Hge|by apply Hlt].
Qed.

(** A matrix returned by [create_from_csr] or [create_from_csc] has one
    value per input entry, while [row], [col] and [nnz] count the distinct
    coordinates: the lengths agree exactly when the compressed input
    repeats no coordinate. *)
Theorem compressed_input_value_count (indptr idx : list Z)
    (val : option (list V)) h (r : ref) (h' : heap (SparseMatrix V)) A :
  create_from_csr indptr idx val h = (Ok r, h')
  ∨ create_from_csc indptr idx val h = (Ok r, h') →
  h' !! r = Some A →
  length (SpMatrix.row A) = nnz A ∧ length (SpMatrix.col A) = nnz A
  ∧ (nnz A ≤ length idx)%nat
  ∧ length (SpMatrix.val A) = length idx
  ∧ (length (SpMatrix.val A) = nnz A
     ↔ NoDup (zip (csr_rows 0 indptr) idx)).
Proof.
  intros Hc HA.
  assert (∃ t : csr_tensor V,
            sparse_csr_tensor indptr idx (ones (V:=V) (length idx)) = Ok t)
    as [t Ht].
  { destruct Hc as [Hc|Hc].
    - apply create_from_csr_inv in Hc as (t & _ & Ht & _). by exists t.
    - apply create_from_csc_inv in Hc as (t & _ & Ht & _). by exists t. }
  destruct (csr_rows_valid _ _ _ _ Ht) as [Hlen _].
  destruct (length_coalesce_keys (zip (csr_rows 0 indptr) idx)) as [Hle Heq].
  assert (nnz A = length (coalesce_keys (zip (csr_rows 0 indptr) idx))
          ∧ length (SpMatrix.val A) = length idx) as [Hn Hv].
  { destruct Hc as [Hc|Hc].
    - apply create_from_csr_inv in Hc as (_ & A' & _ & HA' & -> & ->).
      apply lookup_new in HA as ->; [|done].
      rewrite nnz_length_zip, (init_zip_row_col _ _ _ _ HA').
      apply init_inv in HA' as (_ & Hv & _ & _ & ->).
      unfold SpMatrix.val; simpl. split; [done|congruence].
    - apply create_from_csc_inv in Hc as (_ & A' & _ & HA' & -> & ->).
      apply lookup_new in HA as ->; [|done].
      rewrite nnz_length_zip, (init_zip_row_col _ _ _ _ HA').
      rewrite zip_swap, length_coalesce_keys_swap.
      apply init_inv in HA' as (_ & Hv & _ & _ & ->).
      unfold SpMatrix.val; simpl. split; [done|congruence]. }
  change index with (Z * Z)%type in *.
  rewrite length_zip_with in Hle, Heq.
  rewrite length_row, length_col, Hv, Hn, <- Heq.
  split_and!; try done; try lia.
Qed.

(** Built from the same arrays, the CSC matrix is the transpose of the CSR
    matrix: it stores ([i], [j]) exactly when the CSR matrix stores
    ([j], [i]), with as many entries and with the two dimensions
    exchanged. *)
Theorem csc_is_transposed_csr (indptr idx : list Z) (val : option (list V)) h
    (r : ref) (h' : heap (SparseMatrix V)) A :
  create_from_csr indptr idx val h = (Ok r, h') → h' !! r = Some A →
  ∃ B, create_from_csc indptr idx None h = (Ok (length h), h ++ [B])
       ∧ (∀ i j, (i, j) ∈ zip (SpMatrix.row B) (SpMatrix.col B)
                 ↔ (j, i) ∈ zip (SpMatrix.row A) (SpMatrix.col A))
       ∧ nnz B = nnz A
       ∧ shape B = ((shape A).2, (shape A).1).
Proof.
  intros Hcsr HA. rewrite (csr_zip_row_col _ _ _ _ _ _ _ Hcsr HA).
  apply create_from_csr_inv in Hcsr as (t & A' & Ht & HA' & -> & ->).
  apply lookup_new in HA as ->; [|done].
  destruct (init_fits _ _ _ _ HA') as [Hfr Hfc].
  pose proof HA' as (Hlen & _ & Hnn & Hidx & _)%init_inv.
  pose proof (init_ok idx (csr_rows 0 indptr) None (eq_sym Hlen)
                (length_ones _) Hidx Hnn Hfc Hfr) as HB.
  eexists. split.
  { rewrite (create_from_csc_unfold _ _ _ _ _ Ht). by apply new_ok. }
  split_and!.
  - intros i j. rewrite (init_zip_row_col _ _ _ _ HB), zip_swap.
    by rewrite !elem_of_coalesce_keys, elem_of_prod_swap.
  - rewrite !nnz_length_zip.
    rewrite (init_zip_row_col _ _ _ _ HB), (init_zip_row_col _ _ _ _ HA').
    by rewrite zip_swap, length_coalesce_keys_swap.
  - apply init_inv in HA' as (_ & _ & _ & _ & ->). by unfold shape.
Qed.

End CompressedProperties.

(** * Where the values are stored *)

Section StoredFacts.
Context {V : Type} `{Dtype V}.
Implicit Types (A B : SparseMatrix V) (h : heap (SparseMatrix V)).
Implicit Types (E : list (index * V)).

Lemma stored_at_find A (i j : Z) :
  stored_at A i j = find_entry (coo_entries (adj A)) (i, j).
Proof. reflexivity. Qed.

Lemma find_entry_cons (d : index) (w : V) E (k : index) :
  find_entry ((d, w) :: E) k
  = if decide (d = k) then Some w else find_entry E k.
Proof.
  unfold find_entry. csimpl. destruct (decide (d = k)); [done|].
  by destruct (list_find _ E) as [[? ?]|].
Qed.

Lemma find_entry_absent E (k : index) : k ∉ keys E → find_entry E k = None.
Proof.
  induction E as [|[d w] E IH]; [done|]. intros Hk.
  rewrite find_entry_cons. change (keys ((d, w) :: E)) with (d :: keys E) in Hk.
  rewrite not_elem_of_cons in Hk. destruct Hk as [Hd Hk].
  rewrite decide_False by done. by apply IH.
Qed.

Lemma find_entry_lookup E (n : nat) (k : index) (v : V) :
  NoDup (keys E) → E !! n = Some (k, v) → find_entry E k = Some v.
Proof.
  revert n; induction E as [|[d w] E IH]; intros n HE Hn; [done|].
  change (keys ((d, w) :: E)) with (d :: keys E) in HE.
  apply NoDup_cons in HE as [Hd HE]. rewrite find_entry_cons.
  destruct n as [|n]; simpl in Hn.
  - injection Hn as -> ->. by rewrite decide_True.
  - rewrite decide_False; [by eapply IH|].
    intros ->. apply Hd. unfold keys.
    apply list_elem_of_fmap. exists (k, v). split; [done|].
    by eapply list_elem_of_lookup_2.
Qed.

(** A new coordinate goes in with its value and disturbs no other. *)
Lemma find_entry_insert E (k c : index) (v : V) :
  StronglySorted key_lt (keys E) → k ∉ keys E →
  find_entry (insert_entry k v E) c
  = if decide (k = c) then Some v else find_entry E c.
Proof.
  induction E as [|[d w] E IH]; intros HS Hk.
  - cbn [insert_entry]. by rewrite find_entry_cons.
  - change (keys ((d, w) :: E)) with (d :: keys E) in HS, Hk.
    apply StronglySorted_cons in HS as [Hd HS].
    rewrite not_elem_of_cons in Hk. destruct Hk as [Hkd Hk].
    cbn [insert_entry].
    destruct (idx_compare_spec k d) as [->|Hlt|Hgt]; [done| |].
    + by rewrite find_entry_cons.
    + rewrite !find_entry_cons, IH by done.
      destruct (decide (d = c)) as [->|Hdc]; [|done].
      by rewrite decide_False.
Qed.

Lemma find_entry_fold E (acc : list (index * V)) (c : index) :
  StronglySorted key_lt (keys acc) → NoDup (keys E) →
  (∀ k, k ∈ keys E → k ∉ keys acc) →
  find_entry (fold_left (λ acc e, insert_entry e.1 e.2 acc) E acc) c
  = match find_entry E c with
    | Some v => Some v
    | None => find_entry acc c
    end.
Proof.
  revert acc; induction E as [|[k v] E IH]; intros acc Hacc HE Hdis; [done|].
  change (keys ((k, v) :: E)) with (k :: keys E) in HE, Hdis.
  apply NoDup_cons in HE as [HkE HE].
  assert (k ∉ keys acc) as Hkacc by (apply Hdis; left).
  cbn [fold_left fst snd]. rewrite IH.
  - rewrite find_entry_cons, find_entry_insert by done.
    destruct (decide (k = c)) as [->|Hkc]; [|done].
    by rewrite find_entry_absent.
  - rewrite keys_insert_entry. by apply insert_key_sorted.
  - done.
  - intros d Hd. rewrite keys_insert_entry.
    intros [->|Hdacc]%elem_of_insert_key; [done|].
    by apply (Hdis d); [right|].
Qed.

(** Coalescing entries at distinct coordinates keeps every value at its
    coordinate. *)
Lemma find_entry_coalesce E (c : index) :
  NoDup (keys E) → find_entry (coalesce_entries E) c = find_entry E c.
Proof.
  intros HE. unfold coalesce_entries. rewrite find_entry_fold.
  - by destruct (find_entry E c).
  - constructor.
  - done.
  - intros k _. apply not_elem_of_nil.
Qed.

Lemma init_distinct_stored (row col : list Z) (val : option (list V)) A
    (k : nat) (r c : Z) (v : V) :
  __init__ row col val = Ok A → NoDup (zip row col) →
  row !! k = Some r → col !! k = Some c → init_val row val !! k = Some v →
  stored_at A r c = Some v.
Proof.
  intros (Hrc & Hv & _ & _ & ->)%init_inv Hnd Hr Hc Hval.
  rewrite stored_at_find. unfold coalesce. cbn [adj coo_coalesced coo_entries].
  rewrite find_entry_coalesce by (by rewrite keys_zip).
  apply (find_entry_lookup _ k); [by rewrite keys_zip|].
  apply lookup_zip_with_Some. exists (r, c), v. split_and!; try done.
  apply lookup_zip_with_Some. by exists r, c.
Qed.

(** When no input coordinate is repeated, every value is stored at the
    coordinate it was given for, whatever the order of the input. *)
Theorem distinct_coordinates_keep_values (row col : list Z)
    (val : option (list V)) A (k : nat) (r c : Z) (v : V) :
  __init__ row col val = Ok A → NoDup (zip row col) →
  row !! k = Some r → col !! k = Some c → init_val row val !! k = Some v →
  stored_at A r c = Some v.
Proof. apply init_distinct_stored. Qed.

(** CSR input whose column indices increase strictly within each row
    reads back exactly: [row] is the expanded row pointer, [col] is
    [indices], [val] the values given, and [val[k]] is stored at
    ([row[k]], [col[k]]). *)
Theorem csr_sorted_input_reads_back (indptr idx : list Z) (val : list V) h
    (r : ref) (h' : heap (SparseMatrix V)) A :
  create_from_csr indptr idx (Some val) h = (Ok r, h') → h' !! r = Some A →
  ascending (zip (csr_rows 0 indptr) idx) = true →
  SpMatrix.row A = csr_rows 0 indptr ∧ SpMatrix.col A = idx
  ∧ SpMatrix.val A = val
  ∧ ∀ (k : nat) (i j : Z) (v : V),
      SpMatrix.row A !! k = Some i → SpMatrix.col A !! k = Some j →
      val !! k = Some v → stored_at A i j = Some v.
Proof.
  intros (t & A' & Ht & HA' & -> & ->)%create_from_csr_inv HA Hasc.
  apply lookup_new in HA as ->; [|done].
  destruct (init_ascending_readback _ _ _ _ HA' Hasc)
    as (Hrow & Hcol & Hval & _).
  split_and!; try done.
  intros k i j v Hi Hj Hv.
  eapply (init_ascending_aligned _ _ _ _ k); try done; congruence.
Qed.

(** CSC input whose row indices increase strictly within each column
    stores every value where the docstring of [create_from_csc] says:
    [val[k]] is stored at row [indices[k]] of the column that owns entry
    [k]. *)
Theorem csc_sorted_input_stores_values (indptr idx : list Z) (val : list V) h
    (r : ref) (h' : heap (SparseMatrix V)) B :
  create_from_csc indptr idx (Some val) h = (Ok r, h') → h' !! r = Some B →
  ascending (zip (csr_rows 0 indptr) idx) = true →
  SpMatrix.val B = val
  ∧ ∀ (k : nat) (i j : Z) (v : V),
      idx !! k = Some i → csr_rows 0 indptr !! k = Some j →
      val !! k = Some v → stored_at B i j = Some v.
Proof.
  intros (t & B' & Ht & HB' & -> & ->)%create_from_csc_inv HB Hasc.
  apply lookup_new in HB as ->; [|done].
  apply ascending_sorted in Hasc.
  split.
  - by apply init_inv in HB' as (_ & _ & _ & _ & ->).
  - intros k i j v Hi Hj Hv.
    apply (init_distinct_stored _ _ _ _ k _ _ _ HB'); try done.
    rewrite zip_swap. by apply NoDup_prod_swap, sorted_NoDup.
Qed.

End StoredFacts.

(** * Instances of the further properties *)

Lemma accessors_list_input_coordinates_witness :
  __init__ [1; 0] [0; 0] (Some [10; 20]) = Ok Examples.unsorted_matrix
  ∧ NoDup (zip (SpMatrix.row Examples.unsorted_matrix)
               (SpMatrix.col Examples.unsorted_matrix)).
Proof.
  split; [reflexivity|].
  exact (proj1 (proj2 (accessors_list_input_coordinates [1; 0] [0; 0]
                         (Some [10; 20]) Examples.unsorted_matrix eq_refl))).
Defined.

Lemma nnz_counts_distinct_coordinates_witness :
  __init__ [0; 0] [0; 0] None = Ok Examples.duplicate_matrix
  ∧ (nnz Examples.duplicate_matrix ≤ length [0; 0])%nat.
Proof.
  split; [reflexivity|].
  exact (proj1 (nnz_counts_distinct_coordinates [0; 0] [0; 0] None
                  Examples.duplicate_matrix eq_refl)).
Defined.

Lemma indices_within_shape_witness :
  __init__ [1; 1; 2] [2; 4; 3] None = Ok Examples.doc_matrix
  ∧ Forall (λ r, 0 ≤ r < (shape Examples.doc_matrix).1)
           (SpMatrix.row Examples.doc_matrix).
Proof.
  split; [reflexivity|].
  exact (proj1 (indices_within_shape [1; 1; 2] [2; 4; 3] None
                  Examples.doc_matrix eq_refl)).
Defined.

Lemma init_failures_witness :
  ¬ (length [0; 1] = length [0]
     ∧ length (init_val (V:=Z) [0; 1] None) = length [0; 1]
     ∧ Forall (λ i, 0 ≤ i < int64_max) [0; 1]
     ∧ Forall (λ i, 0 ≤ i < int64_max) [0])
  ∧ __init__ (V:=Z) [0; 1] [0] None = Raise RuntimeError.
Proof.
  assert (¬ (length [0; 1] = length [0]
             ∧ length (init_val (V:=Z) [0; 1] None) = length [0; 1]
             ∧ Forall (λ i, 0 ≤ i < int64_max) [0; 1]
             ∧ Forall (λ i, 0 ≤ i < int64_max) [0])) as Hn
    by (intros [Hlen _]; discriminate Hlen).
  split; [exact Hn|].
  exact (proj1 (init_failures [0; 1] [0] None) Hn).
Defined.

Lemma dense_sums_input_witness :
  __init__ [0; 0] [0; 0] None = Ok Examples.duplicate_matrix
  ∧ 0 ≤ 0 < (shape Examples.duplicate_matrix).1
  ∧ 0 ≤ 0 < (shape Examples.duplicate_matrix).2
  ∧ ∃ line, dense Examples.duplicate_matrix !! Z.to_nat 0 = Some line
            ∧ line !! Z.to_nat 0
              = Some (entry_at (zip (zip [0; 0] [0; 0])
                                    (init_val [0; 0] None)) 0 0).
Proof.
  assert (0 ≤ 0 < (shape Examples.duplicate_matrix).1) as Hi
    by (simpl; lia).
  assert (0 ≤ 0 < (shape Examples.duplicate_matrix).2) as Hj
    by (simpl; lia).
  split; [reflexivity|]. split; [exact Hi|]. split; [exact Hj|].
  exact (proj2 (proj2 (dense_sums_input [0; 0] [0; 0] None
                         Examples.duplicate_matrix eq_refl)) 0 0 Hi Hj).
Defined.

Lemma ascending_input_reads_back_witness :
  __init__ [1; 1; 2] [2; 4; 3] (Some [1; 1; 2]) = Ok Examples.test_matrix
  ∧ ascending (zip [1; 1; 2] [2; 4; 3]) = true
  ∧ SpMatrix.row Examples.test_matrix = [1; 1; 2].
Proof.
  split_and!; [reflexivity|reflexivity|].
  exact (proj1 (ascending_input_reads_back [1; 1; 2] [2; 4; 3] [1; 1; 2]
                  Examples.test_matrix eq_refl eq_refl)).
Defined.

Lemma copy_is_aligned_witness :
  [Examples.test_matrix] !! 0%nat = Some Examples.test_matrix
  ∧ is_coalesced (adj Examples.test_matrix) = true
  ∧ __call__ 0%nat [7; 8; 9] [Examples.test_matrix]
    = (Ok 1%nat, [Examples.test_matrix; Examples.copy_matrix])
  ∧ [Examples.test_matrix; Examples.copy_matrix] !! 1%nat
    = Some Examples.copy_matrix
  ∧ length (SpMatrix.val Examples.copy_matrix) = nnz Examples.copy_matrix.
Proof.
  split_and!; [reflexivity|reflexivity|reflexivity|reflexivity|].
  exact (proj1 (copy_is_aligned 0%nat [Examples.test_matrix]
                  Examples.test_matrix [7; 8; 9] 1%nat
                  [Examples.test_matrix; Examples.copy_matrix]
                  Examples.copy_matrix eq_refl eq_refl eq_refl eq_refl)).
Defined.

Lemma copy_keeps_shape_witness :
  [Examples.test_matrix] !! 0%nat = Some Examples.test_matrix
  ∧ is_coalesced (adj Examples.test_matrix) = true
  ∧ size_inferred (adj Examples.test_matrix) = true
  ∧ __call__ 0%nat [7; 8; 9] [Examples.test_matrix]
    = (Ok 1%nat, [Examples.test_matrix; Examples.copy_matrix])
  ∧ [Examples.test_matrix; Examples.copy_matrix] !! 1%nat
    = Some Examples.copy_matrix
  ∧ shape Examples.copy_matrix = shape Examples.test_matrix.
Proof.
  split_and!; [reflexivity|reflexivity|reflexivity|reflexivity|reflexivity|].
  exact (proj1 (copy_keeps_shape 0%nat [Examples.test_matrix]
                  Examples.test_matrix [7; 8; 9] 1%nat
                  [Examples.test_matrix; Examples.copy_matrix]
                  Examples.copy_matrix eq_refl eq_refl eq_refl eq_refl
                  eq_refl)).
Defined.

Lemma set_val_frame_witness :
  [Examples.test_matrix] !! 0%nat = Some Examples.test_matrix
  ∧ set_val 0%nat [1; 1; 1] [Examples.test_matrix]
    = (Ok (), [Examples.reset_matrix])
  ∧ length [Examples.reset_matrix] = length [Examples.test_matrix].
Proof.
  split_and!; [reflexivity|reflexivity|].
  exact (proj1 (set_val_frame 0%nat [Examples.test_matrix]
                  Examples.test_matrix [1; 1; 1] [Examples.reset_matrix]
                  eq_refl eq_refl)).
Defined.

Lemma csr_rows_are_slices_witness :
  create_from_csr [0; 1; 2; 5] [1; 2; 0; 1; 2] None []
  = (Ok 0%nat, [Examples.csr_matrix])
  ∧ [Examples.csr_matrix] !! 0%nat = Some Examples.csr_matrix
  ∧ ((Z.of_nat 2, 1) ∈ zip (SpMatrix.row Examples.csr_matrix)
                           (SpMatrix.col Examples.csr_matrix)
     ↔ ∃ (lo hi : Z) (k : nat),
         [0; 1; 2; 5] !! 2%nat = Some lo ∧ [0; 1; 2; 5] !! 3%nat = Some hi
         ∧ lo ≤ Z.of_nat k < hi ∧ [1; 2; 0; 1; 2] !! k = Some 1).
Proof.
  split_and!; [reflexivity|reflexivity|].
  exact (csr_rows_are_slices [0; 1; 2; 5] [1; 2; 0; 1; 2] None [] 0%nat
           [Examples.csr_matrix] Examples.csr_matrix 2%nat 1
           eq_refl eq_refl).
Defined.

Lemma csr_shape_inferred_witness :
  create_from_csr [0; 1; 2; 5] [1; 2; 0; 1; 2] None []
  = (Ok 0%nat, [Examples.csr_matrix])
  ∧ [Examples.csr_matrix] !! 0%nat = Some Examples.csr_matrix
  ∧ (shape Examples.csr_matrix).1 ≤ Z.of_nat (length [0; 1; 2; 5]) - 1.
Proof.
  split_and!; [reflexivity|reflexivity|].
  exact (proj1 (csr_shape_inferred [0; 1; 2; 5] [1; 2; 0; 1; 2] None []
                  0%nat [Examples.csr_matrix] Examples.csr_matrix
                  eq_refl eq_refl)).
Defined.

Lemma compressed_input_value_count_witness :
  (create_from_csr [0; 1; 2; 5] [1; 2; 0; 1; 2] None []
   = (Ok 0%nat, [Examples.csr_matrix])
   ∨ create_from_csc [0; 1; 2; 5] [1; 2; 0; 1; 2] None []
     = (Ok 0%nat, [Examples.csr_matrix]))
  ∧ [Examples.csr_matrix] !! 0%nat = Some Examples.csr_matrix
  ∧ length (SpMatrix.row Examples.csr_matrix) = nnz Examples.csr_matrix.
Proof.
  split_and!; [left; reflexivity|reflexivity|].
  exact (proj1 (compressed_input_value_count [0; 1; 2; 5] [1; 2; 0; 1; 2]
                  None [] 0%nat [Examples.csr_matrix] Examples.csr_matrix
                  (or_introl eq_refl) eq_refl)).
Defined.

Lemma csc_is_transposed_csr_witness :
  create_from_csr [0; 1; 2; 5] [1; 2; 0; 1; 2] None []
  = (Ok 0%nat, [Examples.csr_matrix])
  ∧ [Examples.csr_matrix] !! 0%nat = Some Examples.csr_matrix
  ∧ ∃ B : SparseMatrix Z,
      create_from_csc [0; 1; 2; 5] [1; 2; 0; 1; 2] None [] = (Ok 0%nat, [B])
      ∧ (∀ i j, (i, j) ∈ zip (SpMatrix.row B) (SpMatrix.col B)
                ↔ (j, i) ∈ zip (SpMatrix.row Examples.csr_matrix)
                               (SpMatrix.col Examples.csr_matrix))
      ∧ nnz B = nnz Examples.csr_matrix
      ∧ shape B = ((shape Examples.csr_matrix).2,
                   (shape Examples.csr_matrix).1).
Proof.
  split_and!; [reflexivity|reflexivity|].
  exact (csc_is_transposed_csr [0; 1; 2; 5] [1; 2; 0; 1; 2] None [] 0%nat
           [Examples.csr_matrix] Examples.csr_matrix eq_refl eq_refl).
Defined.

Lemma distinct_coordinates_keep_values_witness :
  __init__ [1; 0] [0; 0] (Some [10; 20]) = Ok Examples.unsorted_matrix
  ∧ NoDup (zip [1; 0] [0; 0])
  ∧ stored_at Examples.unsorted_matrix 1 0 = Some 10.
Proof.
  assert (NoDup (zip [1; 0] [0; 0])) as Hnd.
  { apply NoDup_cons. split; [|apply NoDup_singleton].
    intros Hin%list_elem_of_singleton. discriminate Hin. }
  split_and!; [reflexivity|exact Hnd|].
  exact (distinct_coordinates_keep_values [1; 0] [0; 0] (Some [10; 20])
           Examples.unsorted_matrix 0%nat 1 0 10 eq_refl Hnd
           eq_refl eq_refl eq_refl).
Defined.

Lemma csr_sorted_input_reads_back_witness :
  create_from_csr [0; 1; 2; 5] [1; 2; 0; 1; 2] (Some [1; 2; 3; 4; 5]) []
  = (Ok 0%nat, [Examples.csr_val_matrix])
  ∧ [Examples.csr_val_matrix] !! 0%nat = Some Examples.csr_val_matrix
  ∧ ascending (zip (csr_rows 0 [0; 1; 2; 5]) [1; 2; 0; 1; 2]) = true
  ∧ SpMatrix.col Examples.csr_val_matrix = [1; 2; 0; 1; 2].
Proof.
  split_and!; [reflexivity|reflexivity|reflexivity|].
  exact (proj1 (proj2 (csr_sorted_input_reads_back [0; 1; 2; 5]
                         [1; 2; 0; 1; 2] [1; 2; 3; 4; 5] [] 0%nat
                         [Examples.csr_val_matrix] Examples.csr_val_matrix
                         eq_refl eq_refl eq_refl))).
Defined.

Lemma csc_sorted_input_stores_values_witness :
  create_from_csc [0; 1; 3; 5] [2; 0; 2; 1; 2] (Some [1; 2; 3; 4; 5]) []
  = (Ok 0%nat, [Examples.csc_val_matrix])
  ∧ [Examples.csc_val_matrix] !! 0%nat = Some Examples.csc_val_matrix
  ∧ ascending (zip (csr_rows 0 [0; 1; 3; 5]) [2; 0; 2; 1; 2]) = true
  ∧ stored_at Examples.csc_val_matrix 0 1 = Some 2.
Proof.
  split_and!; [reflexivity|reflexivity|reflexivity|].
  exact (proj2 (csc_sorted_input_stores_values [0; 1; 3; 5] [2; 0; 2; 1; 2]
                  [1; 2; 3; 4; 5] [] 0%nat [Examples.csc_val_matrix]
                  Examples.csc_val_matrix eq_refl eq_refl eq_refl)
           1%nat 0 1 2 eq_refl eq_refl eq_refl).
Defined.

(** * Repeated coordinates and empty input *)

Section EdgeProperties.
Context {V : Type} `{Dtype V}.
Implicit Types (A B : SparseMatrix V) (h : heap (SparseMatrix V)).

(** After construction from coordinates there are as many values as
    stored entries exactly when no coordinate is repeated; with a repeated
    coordinate, assigning the matrix its own value array is refused. *)
Theorem value_count_matches_iff_distinct (row col : list Z)
    (val : option (list V)) A h (self : ref) :
  __init__ row col val = Ok A → h !! self = Some A →
  (length (SpMatrix.val A) = nnz A ↔ NoDup (zip row col))
  ∧ (¬ NoDup (zip row col) →
     set_val self (SpMatrix.val A) h = (Raise AssertionError, h)).
Proof.
  intros HA Hself.
  assert (length (SpMatrix.val A) = nnz A ↔ NoDup (zip row col)) as Hiff.
  { rewrite nnz_length_zip, (init_zip_row_col _ _ _ _ HA).
    apply init_inv in HA as (Hrc & Hv & _ & _ & ->).
    unfold SpMatrix.val; simpl. rewrite Hv.
    destruct (length_coalesce_keys (zip row col)) as [_ Heq].
    change index with (Z * Z)%type in *.
    rewrite length_zip_with in Heq.
    rewrite <- Heq. split; intros Hl; lia. }
  split; [done|]. intros Hdup.
  unfold set_val, bind, deref, assert. rewrite Hself.
  rewrite bool_decide_eq_false_2; [done|]. by rewrite Hiff.
Qed.

(** A dimension of the shape is zero exactly for empty input, and then
    [dense()] has no row. *)
Theorem shape_zero_iff_empty (row col : list Z) (val : option (list V)) A :
  __init__ row col val = Ok A →
  ((shape A).1 = 0 ↔ row = []) ∧ ((shape A).2 = 0 ↔ row = [])
  ∧ (row = [] → shape A = (0, 0) ∧ dense A = []).
Proof.
  intros (Hrc & _ & Hr & Hc & ->)%init_inv. unfold shape, dense; simpl.
  apply nonneg_Forall in Hr, Hc.
  split_and!.
  - split; [|by intros ->]. destruct row as [|r row]; [done|].
    intros H0. apply Forall_cons in Hr as [Hr _].
    pose proof (elem_of_infer_size r (r :: row) ltac:(left)). lia.
  - split.
    + destruct col as [|c col]; [by destruct row|].
      intros H0. apply Forall_cons in Hc as [Hc _].
      pose proof (elem_of_infer_size c (c :: col) ltac:(left)). lia.
    + intros ->. by destruct col.
  - intros ->. by destruct col.
Qed.

End EdgeProperties.

Lemma value_count_matches_iff_distinct_witness :
  __init__ [0; 0] [0; 0] None = Ok Examples.duplicate_matrix
  ∧ [Examples.duplicate_matrix] !! 0%nat = Some Examples.duplicate_matrix
  ∧ (length (SpMatrix.val Examples.duplicate_matrix)
     = nnz Examples.duplicate_matrix
     ↔ NoDup (zip [0; 0] [0; 0])).
Proof.
  split_and!; [reflexivity|reflexivity|].
  exact (proj1 (value_count_matches_iff_distinct [0; 0] [0; 0] None
                  Examples.duplicate_matrix [Examples.duplicate_matrix]
                  0%nat eq_refl eq_refl)).
Defined.

Lemma shape_zero_iff_empty_witness :
  __init__ [1; 1; 2] [2; 4; 3] None = Ok Examples.doc_matrix
  ∧ ((shape Examples.doc_matrix).1 = 0 ↔ [1; 1; 2] = []).
Proof.
  split; [reflexivity|].
  exact (proj1 (shape_zero_iff_empty [1; 1; 2] [2; 4; 3] None
                  Examples.doc_matrix eq_refl)).
Defined.
